(** * HLS stream output: segment buffer, recv protocol and manifest rendering

    A shallow embedding of [homeassistant/components/stream/hls.py]:
    the [HlsStreamOutput] buffer (a bounded deque of segments, a shared
    cursor and an [asyncio.Event]), the two manifest renderers
    ([HlsMasterPlaylistView.render] and [HlsPlaylistView.render]) and the
    Python arithmetic they rely on ([round], [max], float division and
    multiplication, [str.format]). *)

From Stdlib Require Import ZArith QArith Qround Qabs Qpower Lia Lqa List Bool String Ascii.
From Stdlib Require Import Floats.SpecFloat DecimalString DecimalPos.
Import ListNotations.

Local Open Scope Z_scope.

(** ** Python results

    A Python call either returns a value or raises.  Only the exception
    classes that the modelled code can raise are listed. *)

Inductive exn : Type :=
| AttributeError
| IndexError
| ZeroDivisionError
| ValueError
| OverflowError
| TypeError.

Inductive result (A : Type) : Type :=
| Ok (a : A)
| Raise (e : exn).

Arguments Ok {A} a.
Arguments Raise {A} e.

(** ** Python floats

    A Python [float] is an IEEE 754 binary64 number; [spec_float] with
    [prec = 53] and [emax = 1024] is the Standard Library's specification
    of it. *)

Module PyFloat.

Definition float : Type := spec_float.

Definition prec : Z := 53.
Definition emax : Z := 1024.

Definition valid (x : float) : bool := valid_binary prec emax x.

(** [float(n)] for a Python [int]: the nearest binary64 number;
    [OverflowError] when [n] is beyond the finite range. *)
Definition of_int (n : Z) : result float :=
  match binary_normalize prec emax n 0 false with
  | S754_infinity _ => Raise OverflowError
  | x => Ok x
  end.

(** [x < y], [x * y] on floats. *)
Definition ltb (x y : float) : bool := SFltb x y.
Definition mul (x y : float) : float := SFmul prec emax x y.

(** [x / y] on floats: Python raises on a zero divisor where IEEE 754
    would return an infinity or a NaN. *)
Definition truediv (x y : float) : result float :=
  match y with
  | S754_zero _ => Raise ZeroDivisionError
  | _ => Ok (SFdiv prec emax x y)
  end.

(** The literal [1.2]: the binary64 number nearest to 6/5,
    [0x3FF3333333333333]. *)
Definition lit_1_2 : float := S754_finite false 5404319552844595 (-52).

(** The nearest integer to [n / d] for [0 < d], ties to the even one. *)
Definition div_half_even (n d : Z) : Z :=
  let q := n / d in
  match (2 * (n mod d)) ?= d with
  | Lt => q
  | Gt => q + 1
  | Eq => if Z.even q then q else q + 1
  end.

(** The nearest integer to [m * 2^e], ties to even. *)
Definition nearest (m e : Z) : Z :=
  if 0 <=? e then m * 2 ^ e else div_half_even m (2 ^ (- e)).

(** [round(x)] with one argument: the nearest integer, ties to even;
    [ValueError] on a NaN and [OverflowError] on an infinity. *)
Definition round (x : float) : result Z :=
  match x with
  | S754_zero _ => Ok 0
  | S754_infinity _ => Raise OverflowError
  | S754_nan => Raise ValueError
  | S754_finite s m e => Ok (cond_Zopp s (nearest (Zpos m) e))
  end.

(** The exact value of a finite float, as a rational. *)
Definition to_Q (x : float) : Q :=
  match x with
  | S754_finite s m e => inject_Z (cond_Zopp s (Zpos m)) * (2 # 1) ^ e
  | _ => 0%Q
  end.

(** A finite float that is strictly positive. *)
Definition positive_finite (x : float) : bool :=
  match x with
  | S754_finite false _ _ => valid x
  | _ => false
  end.

(** [max(l)] for a non-empty list, as CPython computes it: the first
    item is the candidate, and a later item replaces the candidate when
    [item > candidate]. *)
Fixpoint max_from (candidate : float) (l : list float) : float :=
  match l with
  | [] => candidate
  | item :: l' => max_from (if ltb candidate item then item else candidate) l'
  end.

Definition max (l : list float) : result float :=
  match l with
  | [] => Raise ValueError
  | x :: l' => Ok (max_from x l')
  end.

End PyFloat.

(** Rounding a rational to the nearest integer, the even one of the two
    when it lies half way: what [round] is documented to compute, stated
    on exact values. *)
Definition Qround_half_even (q : Q) : Z :=
  let f := Qfloor q in
  match Qcompare (q - inject_Z f) (1 # 2) with
  | Lt => f
  | Eq => if Z.even f then f else f + 1
  | Gt => f + 1
  end.

(** ** Python strings and formatting *)

Module PyStr.

Local Open Scope string_scope.

(** The line feed and the double quote, by their character codes. *)
Definition newline : string := String (ascii_of_nat 10) EmptyString.
Definition dquote : string := String (ascii_of_nat 34) EmptyString.

(** [str(n)] for a Python [int]. *)
Definition of_int (n : Z) : string := NilZero.string_of_int (Z.to_int n).

(** [sep.join(lines)]. *)
Fixpoint join (sep : string) (lines : list string) : string :=
  match lines with
  | [] => ""
  | [l] => l
  | l :: rest => l ++ sep ++ join sep rest
  end.

(** The four decimals of [n mod 10000], zero padded. *)
Definition decimals4 (n : Z) : string :=
  match of_int (10000 + n mod 10000) with
  | String _ ds => ds
  | EmptyString => ""
  end.

(** ["{:.04f}".format(x)] for a float: the decimal expansion of [x]
    rounded to four places, ties to even on the exact value. *)
Definition format_04f (x : PyFloat.float) : string :=
  match x with
  | S754_nan => "nan"
  | S754_infinity s => if s then "-inf" else "inf"
  | S754_zero s => (if s then "-" else "") ++ "0.0000"
  | S754_finite s m e =>
      let n := PyFloat.nearest (Zpos m * 10000) e in
      (if s then "-" else "") ++ of_int (n / 10000) ++ "." ++ decimals4 n
  end.

End PyStr.

(** ** Python lists *)

Module PyList.

(** [l[-1]]. *)
Definition index_last {A : Type} (l : list A) : result A :=
  match rev l with
  | [] => Raise IndexError
  | x :: _ => Ok x
  end.

(** [l[start:]]: a negative [start] counts from the end, and a start
    before the first item is the first item. *)
Definition slice_from {A : Type} (start : Z) (l : list A) : list A :=
  let len := Z.of_nat (List.length l) in
  let start := if start <? 0 then Z.max 0 (start + len) else start in
  skipn (Z.to_nat start) l.

(** [max(l, default=d)] on integers. *)
Definition max_default (l : list Z) (d : Z) : Z :=
  match l with
  | [] => d
  | x :: l' => fold_left (fun candidate item => if candidate <? item then item else candidate) l' x
  end.

End PyList.

(** ** The data model *)

(** [io.BytesIO]: the bytes of the buffer and the stream position. *)
Record BytesIO : Type := mkBytesIO {
  getvalue : list Byte.byte;
  tell : Z
}.

(** [b.seek(offset, io.SEEK_END)]: the position becomes the size plus
    [offset], not below zero, and is returned. *)
Definition seek_end (offset : Z) (b : BytesIO) : Z * BytesIO :=
  let pos := Z.max 0 (Z.of_nat (List.length (getvalue b)) + offset) in
  (pos, {| getvalue := getvalue b; tell := pos |}).

(** Modelled from the spec: the [Segment] class, which [hls.py] imports
    from [.core] and which is not among the sources.  Its fields are the
    three attributes [hls.py] reads: the [sequence] number, the payload
    stream [segment] (an [io.BytesIO]) and the [duration] in seconds, a
    positive real number held as a float. *)
Record Segment : Type := mkSegment {
  sequence : Z;
  segment : BytesIO;
  duration : PyFloat.float
}.

(** [collections.deque] with a [maxlen]. *)
Record deque (A : Type) : Type := mkDeque {
  items : list A;
  maxlen : nat
}.

Arguments mkDeque {A} items maxlen.
Arguments items {A} d.
Arguments maxlen {A} d.

Definition deque_new {A : Type} (n : nat) : deque A := mkDeque [] n.

(** [d.append(x)]: when the deque is over its [maxlen] afterwards, the
    leftmost item is discarded. *)
Definition deque_append {A : Type} (d : deque A) (x : A) : deque A :=
  let l := items d ++ [x] in
  mkDeque (if (maxlen d <? List.length l)%nat then tl l else l) (maxlen d).

(** [HlsStreamOutput]: the cursor, the value of the [asyncio.Event], and
    the deque of segments. *)
Record HlsStreamOutput : Type := mkOutput {
  _cursor : option Z;
  _event : bool;
  _segments : deque Segment
}.

(** ** Methods as state transformers

    A method call runs on the [HlsStreamOutput] it is given; it returns
    or raises, and leaves the object as its assignments and the calls on
    its streams made it.  An exception keeps what was done before it. *)

Definition M (A : Type) : Type := HlsStreamOutput -> result A * HlsStreamOutput.

Definition ret {A : Type} (a : A) : M A := fun self => (Ok a, self).

Definition bind {A B : Type} (m : M A) (k : A -> M B) : M B :=
  fun self =>
    match m self with
    | (Ok a, self') => k a self'
    | (Raise e, self') => (Raise e, self')
    end.

Definition raise {A : Type} (e : exn) : M A := fun self => (Raise e, self).

(** Reading an attribute or a property of the object. *)
Definition gets {A : Type} (f : HlsStreamOutput -> A) : M A :=
  fun self => (Ok (f self), self).

(** A computation that does not touch the object. *)
Definition lift {A : Type} (r : result A) : M A := fun self => (r, self).

Declare Scope py_scope.
Delimit Scope py_scope with py.
Notation "x <- m ;; k" := (bind m (fun x => k))
  (at level 61, m at next level, right associativity) : py_scope.

(** What [get_segment] hands back: the deque itself, one of its segments
    (the object at position [i] of the deque), or [None]. *)
Inductive segment_ref : Type :=
| WholeDeque (d : deque Segment)
| OneSegment (i : nat) (s : Segment)
| NoSegment.

(** The loop of [get_segment]: the first segment, from position [i] on,
    whose [sequence] is the one asked for. *)
Fixpoint find_sequence (seq : Z) (i : nat) (l : list Segment) : segment_ref :=
  match l with
  | [] => NoSegment
  | s :: l' => if sequence s =? seq then OneSegment i s else find_sequence seq (S i) l'
  end.

(** Writing the stream of the segment at position [i] of the deque. *)
Fixpoint set_stream (i : nat) (b : BytesIO) (l : list Segment) : list Segment :=
  match l, i with
  | [], _ => []
  | s :: l', O => mkSegment (sequence s) b (duration s) :: l'
  | s :: l', S i' => s :: set_stream i' b l'
  end.

Definition with_stream (i : nat) (b : BytesIO) (self : HlsStreamOutput) : HlsStreamOutput :=
  mkOutput (_cursor self) (_event self)
           (mkDeque (set_stream i b (items (_segments self))) (maxlen (_segments self))).

Section Hls.

(** The constants [MAX_SEGMENTS] and [NUM_PLAYLIST_SEGMENTS] of [.const]
    and the codec reader [get_codec_string] of [.fmp4utils], none of
    which is among the sources: [get_codec_string] is given the stream,
    returns the codec string or raises, and leaves the stream as its own
    reads and seeks made it. *)
Variable MAX_SEGMENTS : nat.
Variable NUM_PLAYLIST_SEGMENTS : Z.
Variable get_codec_string : BytesIO -> result string * BytesIO.

Local Open Scope py_scope.

(** [HlsStreamOutput.__init__]. *)
Definition init : HlsStreamOutput :=
  mkOutput None false (deque_new MAX_SEGMENTS).

(** The [segments] property. *)
Definition segments (self : HlsStreamOutput) : list Z :=
  map sequence (items (_segments self)).

(** The [target_duration] property. *)
Definition target_duration (self : HlsStreamOutput) : result Z :=
  let segment_length := List.length (items (_segments self)) in
  if (segment_length =? 0)%nat then Ok 1
  else
    let durations := map duration (items (_segments self)) in
    match PyFloat.max durations with
    | Raise e => Raise e
    | Ok m =>
        match PyFloat.round m with
        | Raise e => Raise e
        | Ok r => Ok (if r =? 0 then 1 else r)
        end
    end.

(** [not sequence] for an optional integer: true for [None] and for 0. *)
Definition falsy (sequence : option Z) : bool :=
  match sequence with
  | None => true
  | Some n => n =? 0
  end.

(** [get_segment]. *)
Definition get_segment (self : HlsStreamOutput) (sequence : option Z) : segment_ref :=
  if falsy sequence then WholeDeque (_segments self)
  else
    match sequence with
    | Some n => find_sequence n 0 (items (_segments self))
    | None => NoSegment
    end.

(** Attribute access on what [get_segment] returned: a deque and [None]
    have no [segment], [duration] or [sequence] attribute. *)
Definition the_segment (r : segment_ref) : result (nat * Segment) :=
  match r with
  | OneSegment i s => Ok (i, s)
  | WholeDeque _ => Raise AttributeError
  | NoSegment => Raise AttributeError
  end.

(** [segment.segment.seek(0, io.SEEK_END)] on the segment at position
    [i]: the stream of that segment is repositioned. *)
Definition seek_segment_end (i : nat) (s : Segment) : M Z :=
  fun self =>
    let (pos, b) := seek_end 0 (segment s) in
    (Ok pos, with_stream i b self).

(** [get_codec_string(segment.segment)] on the segment at position [i],
    whose stream is the one the collaborator is handed. *)
Definition codec_string (i : nat) : M string :=
  fun self =>
    match nth_error (items (_segments self)) i with
    | None => (Raise IndexError, self)
    | Some s =>
        let (r, b) := get_codec_string (segment s) in
        (r, with_stream i b self)
    end.

(** [round(size * 8 / duration * 1.2)]. *)
Definition bandwidth (size : Z) (duration : PyFloat.float) : result Z :=
  match PyFloat.of_int (size * 8) with
  | Raise e => Raise e
  | Ok bits =>
      match PyFloat.truediv bits duration with
      | Raise e => Raise e
      | Ok rate => PyFloat.round (PyFloat.mul rate PyFloat.lit_1_2)
      end
  end.

(** [HlsMasterPlaylistView.render]. *)
Definition render_master : M string :=
  seqs <- gets segments ;;
  last <- lift (PyList.index_last seqs) ;;
  found <- gets (fun track => get_segment track (Some last)) ;;
  ref <- lift (the_segment found) ;;
  size <- seek_segment_end (fst ref) (snd ref) ;;
  bandwidth <- lift (bandwidth size (duration (snd ref))) ;;
  codecs <- codec_string (fst ref) ;;
  let lines :=
    [ "#EXTM3U"%string;
      ("#EXT-X-STREAM-INF:BANDWIDTH=" ++ PyStr.of_int bandwidth ++ ",CODECS="
         ++ PyStr.dquote ++ codecs ++ PyStr.dquote)%string;
      "playlist.m3u8"%string ] in
  ret (PyStr.join PyStr.newline lines ++ PyStr.newline)%string.

(** [HlsPlaylistView.render_preamble]. *)
Definition render_preamble : M (list string) :=
  target <- (fun track => (target_duration track, track)) ;;
  ret [ "#EXT-X-VERSION:7"%string;
        ("#EXT-X-TARGETDURATION:" ++ PyStr.of_int target)%string;
        ("#EXT-X-MAP:URI=" ++ PyStr.dquote ++ "init.mp4" ++ PyStr.dquote)%string ].

(** The body of the [for] loop of [render_playlist], over the sequence
    numbers still to visit. *)
Fixpoint render_entries (sequences : list Z) (playlist : list string) : M (list string) :=
  match sequences with
  | [] => ret playlist
  | sequence0 :: rest =>
      found <- gets (fun track => get_segment track (Some sequence0)) ;;
      ref <- lift (the_segment found) ;;
      render_entries rest
        (playlist ++
           [ ("#EXTINF:" ++ PyStr.format_04f (duration (snd ref)) ++ ",")%string;
             ("./segment/" ++ PyStr.of_int (sequence (snd ref)) ++ ".m4s")%string ])
  end.

(** [HlsPlaylistView.render_playlist]. *)
Definition render_playlist : M (list string) :=
  all <- gets segments ;;
  let window := PyList.slice_from (- NUM_PLAYLIST_SEGMENTS) all in
  match window with
  | [] => ret []
  | first :: _ =>
      render_entries window [("#EXT-X-MEDIA-SEQUENCE:" ++ PyStr.of_int first)%string]
  end.

(** [HlsPlaylistView.render]. *)
Definition render_media : M string :=
  preamble <- render_preamble ;;
  playlist <- render_playlist ;;
  let lines := ["#EXTM3U"%string] ++ preamble ++ playlist in
  ret (PyStr.join PyStr.newline lines ++ PyStr.newline)%string.

(** *** [recv] and the event loop

    [recv] is a coroutine with one suspension point, [await
    self._event.wait()].  [Event.wait] returns at once when the event is
    set and otherwise parks the caller on a future; [Event.set] resolves
    the futures of all parked callers, which the loop resumes later, one
    at a time; [Event.clear] only resets the value.  A call of [recv] is
    a task of the loop: parked and not yet released ([Waiting]), released
    and due to be resumed ([Woken]), or returned ([Done]). *)

Inductive task : Type :=
| Waiting
| Woken
| Done (r : result (option Segment)).

Record Loop : Type := mkLoop {
  output : HlsStreamOutput;
  tasks : list task
}.

(** [recv] before its [await]: whether the call reaches the [await]. *)
Definition recv_waits (self : HlsStreamOutput) : bool :=
  let last_segment := PyList.max_default (segments self) 0 in
  match _cursor self with
  | None => true
  | Some cursor => cursor <=? last_segment
  end.

Definition set_cursor (c : option Z) : M unit :=
  fun self => (Ok tt, mkOutput c (_event self) (_segments self)).

(** [recv] after its [await]. *)
Definition recv_rest : M (option Segment) :=
  d <- gets _segments ;;
  if (List.length (items d) =? 0)%nat then ret None
  else
    found <- gets (fun self => get_segment self None) ;;
    match found with
    | WholeDeque all =>
        segment0 <- lift (PyList.index_last (items all)) ;;
        _ <- set_cursor (Some (sequence segment0)) ;;
        ret (Some segment0)
    | _ => raise TypeError
    end.

(** A call of [recv] runs until it returns or parks on the event; the new
    task is the last of the loop. *)
Definition call_recv (w : Loop) : Loop :=
  if recv_waits (output w) && negb (_event (output w))
  then mkLoop (output w) (tasks w ++ [Waiting])
  else
    let (r, self) := recv_rest (output w) in
    mkLoop self (tasks w ++ [Done r]).

Fixpoint set_task (i : nat) (t : task) (l : list task) : list task :=
  match l, i with
  | [], _ => []
  | _ :: l', O => t :: l'
  | x :: l', S i' => x :: set_task i' t l'
  end.

(** The loop resumes task [i] when it was released. *)
Definition resume (i : nat) (w : Loop) : Loop :=
  match nth_error (tasks w) i with
  | Some Woken =>
      let (r, self) := recv_rest (output w) in
      mkLoop self (set_task i (Done r) (tasks w))
  | _ => w
  end.

Definition wake (t : task) : task :=
  match t with
  | Waiting => Woken
  | _ => t
  end.

(** [self._event.set()] and [self._event.clear()]. *)
Definition event_set (w : Loop) : Loop :=
  if _event (output w) then w
  else mkLoop (mkOutput (_cursor (output w)) true (_segments (output w)))
              (map wake (tasks w)).

Definition event_clear (w : Loop) : Loop :=
  mkLoop (mkOutput (_cursor (output w)) false (_segments (output w))) (tasks w).

(** [_async_put]. *)
Definition _async_put (segment0 : Segment) (w : Loop) : Loop :=
  let self := output w in
  let stored :=
    mkLoop (mkOutput (_cursor self) (_event self) (deque_append (_segments self) segment0))
           (tasks w) in
  event_clear (event_set stored).

(** [cleanup]. *)
Definition cleanup (w : Loop) : Loop :=
  let w' := event_set w in
  mkLoop (mkOutput (_cursor (output w')) (_event (output w')) (deque_new MAX_SEGMENTS))
         (tasks w').

(** What can happen to a stream output, one callback of the loop at a
    time. *)
Inductive action : Type :=
| CallRecv
| Resume (i : nat)
| Put (s : Segment)
| Cleanup.

Definition step (w : Loop) (a : action) : Loop :=
  match a with
  | CallRecv => call_recv w
  | Resume i => resume i w
  | Put s => _async_put s w
  | Cleanup => cleanup w
  end.

Definition run (acts : list action) (w : Loop) : Loop := fold_left step acts w.

Definition start : Loop := mkLoop init [].

Definition reachable (w : Loop) : Prop := exists acts, w = run acts start.

Definition is_put (a : action) : bool :=
  match a with Put _ => true | _ => false end.

Definition is_signal (a : action) : bool :=
  match a with Put _ | Cleanup => true | _ => false end.

End Hls.

(** ** The views

    The four request handlers of [hls.py].  The handler is given the
    stream output ([stream.hls_output()]) and, for a segment, the
    sequence number that the route matched. *)

(** What a handler returns: [web.HTTPNotFound()], or a [web.Response]
    with its body and its [Content-Type] header. *)
Inductive response : Type :=
| HTTPNotFound
| Response (body : list Byte.byte) (content_type : string).

(** [text.encode("utf-8")]: a [string] here is the sequence of the bytes
    of the text. *)
Definition encode_utf8 (text : string) : list Byte.byte := list_byte_of_string text.

(** The [sequence] a request carries: the route admits [\d+], and the
    handler takes [int(sequence)] of it.  [None] is a path that the route
    does not match. *)
Definition route_sequence (sequence : string) : option Z :=
  option_map Z.of_uint (NilZero.uint_of_string sequence).

(** A call on the stream of the segment at position [i] of the deque,
    which leaves the stream as the callee left it. *)
Definition on_stream {A : Type} (i : nat) (f : BytesIO -> result A * BytesIO) : M A :=
  fun self =>
    match nth_error (items (_segments self)) i with
    | None => (Raise IndexError, self)
    | Some s =>
        let (r, b) := f (segment s) in
        (r, with_stream i b self)
    end.

(** A manifest handler is a coroutine that is suspended at most once, in
    its call of [recv]: it has answered, or it waits for the call of
    [recv] that is task [i] of the loop. *)
Inductive handler : Type :=
| Answered (r : result response)
| Pending (i : nat).

Section Views.

(** [FORMAT_CONTENT_TYPE["hls"]] of [.const], and [get_init] and
    [get_m4s] of [.fmp4utils], none of which is among the sources: the
    two readers are given the stream, return the bytes or raise, and
    leave the stream as their reads and seeks made it. *)
Variable hls_content_type : string.
Variable get_init : BytesIO -> result (list Byte.byte) * BytesIO.
Variable get_m4s : BytesIO -> Z -> result (list Byte.byte) * BytesIO.

Local Open Scope py_scope.

(** The last two statements of both manifest handlers: the headers, and
    the response made of [self.render(track)]. *)
Definition respond (render : M string) : M response :=
  text <- render ;;
  ret (Response (encode_utf8 text) hls_content_type).

(** A manifest handler from the return of [await track.recv()] on: a
    segment is a true value and [None] a false one. *)
Definition after_recv (render : M string) (r : result (option Segment)) : M response :=
  match r with
  | Raise e => raise e
  | Ok None => ret HTTPNotFound
  | Ok (Some _) => respond render
  end.

(** [HlsMasterPlaylistView.handle] and [HlsPlaylistView.handle], which
    differ in their [render] only, from the request to the answer or to
    the suspension in [recv]. *)
Definition handle_begin (render : M string) (w : Loop) : handler * Loop :=
  if (List.length (segments (output w)) =? 0)%nat
  then
    let w1 := call_recv w in
    match nth_error (tasks w1) (List.length (tasks w)) with
    | Some (Done r) =>
        let (a, self) := after_recv render r (output w1) in
        (Answered a, mkLoop self (tasks w1))
    | _ => (Pending (List.length (tasks w)), w1)
    end
  else
    let (a, self) := respond render (output w) in
    (Answered a, mkLoop self (tasks w)).

(** The same handlers from the resumption of their call of [recv] on. *)
Definition handle_resume (render : M string) (i : nat) (w : Loop) : handler * Loop :=
  match nth_error (tasks w) i, nth_error (tasks (resume i w)) i with
  | Some Woken, Some (Done r) =>
      let (a, self) := after_recv render r (output (resume i w)) in
      (Answered a, mkLoop self (tasks (resume i w)))
  | _, _ => (Pending i, w)
  end.

(** [HlsInitView.handle]. *)
Definition init_handle : M response :=
  found <- gets (fun track => get_segment track None) ;;
  match found with
  | WholeDeque d =>
      match items d with
      | [] => ret HTTPNotFound
      | _ :: _ =>
          body <- on_stream 0 get_init ;;
          ret (Response body "video/mp4")
      end
  | OneSegment _ _ => raise TypeError
  | NoSegment => ret HTTPNotFound
  end.

(** [HlsSegmentView.handle], given [int(sequence)]: a deque is a true
    value unless it is empty, and has no [segment] attribute. *)
Definition segment_handle (n : Z) : M response :=
  found <- gets (fun track => get_segment track (Some n)) ;;
  match found with
  | NoSegment => ret HTTPNotFound
  | WholeDeque d =>
      match items d with
      | [] => ret HTTPNotFound
      | _ :: _ => raise AttributeError
      end
  | OneSegment i _ =>
      body <- on_stream i (fun b => get_m4s b n) ;;
      ret (Response body "video/iso.segment")
  end.

End Views.

(** The answer made of what a reader of [.fmp4utils] returned. *)
Definition answer_with (content_type : string) (r : result (list Byte.byte)) : result response :=
  match r with
  | Ok body => Ok (Response body content_type)
  | Raise e => Raise e
  end.

(** The number that a non-empty run of decimal digits writes; [None] for
    any other text. *)
Definition decimal_value (digits : string) : option Z :=
  option_map Z.of_uint (NilZero.uint_of_string digits).

(** Whether, on each of the [fuel] integers from [k] on, [decimals4]
    gives four characters that are digits and write that integer. *)
Fixpoint four_decimals_from (fuel : nat) (k : Z) : bool :=
  match fuel with
  | O => true
  | S fuel' =>
      (String.length (PyStr.decimals4 k) =? 4)%nat
      && match decimal_value (PyStr.decimals4 k) with
         | Some v => v =? k
         | None => false
         end
      && four_decimals_from fuel' (k + 1)
  end.

(** The lines of one segment in the segment-listing manifest. *)
Definition entry_lines (s : Segment) : list string :=
  [ ("#EXTINF:" ++ PyStr.format_04f (duration s) ++ ",")%string;
    ("./segment/" ++ PyStr.of_int (sequence s) ++ ".m4s")%string ].

(** A step that is a [cleanup] or the resumption of task [i]. *)
Definition ends_or_resumes (i : nat) (a : action) : bool :=
  match a with
  | Cleanup => true
  | Resume j => (j =? i)%nat
  | _ => false
  end.

(** ** Sample data

    The binary64 numbers 6.0, 5.5 and 6.25, and the buffers used as
    concrete inputs below. *)

Definition f_6_0 : PyFloat.float := S754_finite false 6755399441055744 (-50).
Definition f_5_5 : PyFloat.float := S754_finite false 6192449487634432 (-50).
Definition f_6_25 : PyFloat.float := S754_finite false 7036874417766400 (-50).

Definition three_bytes : list Byte.byte := [Byte.x00; Byte.x01; Byte.x02].

Definition segment_0 : Segment :=
  mkSegment 0 (mkBytesIO (repeat Byte.x00 (Z.to_nat 750000)) 0) f_6_0.
Definition segment_1 : Segment := mkSegment 1 (mkBytesIO three_bytes 0) f_6_0.
Definition segment_2 : Segment := mkSegment 2 (mkBytesIO three_bytes 0) f_5_5.
Definition segment_3 : Segment := mkSegment 3 (mkBytesIO three_bytes 0) f_6_0.
Definition segment_4 : Segment := mkSegment 4 (mkBytesIO three_bytes 0) f_6_25.

Definition segment_5 : Segment := mkSegment 5 (mkBytesIO three_bytes 0) (S754_zero false).

(** A buffer of capacity 3 holding the given segments. *)
Definition buffer_of (l : list Segment) : HlsStreamOutput :=
  mkOutput None false (mkDeque l 3).

(** A codec reader that returns a fixed string and leaves the stream as
    it found it. *)
Definition quiet_codec (b : BytesIO) : result string * BytesIO :=
  (Ok "avc1.64001f"%string, b).

(** A segment reader that returns the bytes of the stream and leaves the
    stream as it found it, and a content type. *)
Definition quiet_m4s (b : BytesIO) (n : Z) : result (list Byte.byte) * BytesIO :=
  (Ok (getvalue b), b).

Definition sample_content_type : string := "application/vnd.apple.mpegurl".

(** The segments appended by a run, in the order of the appends. *)
Fixpoint puts_of (acts : list action) : list Segment :=
  match acts with
  | [] => []
  | Put s :: rest => s :: puts_of rest
  | _ :: rest => puts_of rest
  end.

Definition is_cleanup (a : action) : bool :=
  match a with Cleanup => true | _ => false end.

(** Strictly ascending integers. *)
Fixpoint ascending (l : list Z) : Prop :=
  match l with
  | [] => True
  | x :: l' => (match l' with [] => True | y :: _ => x < y end) /\ ascending l'
  end.

(** ** Invariants of the protocol and auxiliary notions *)

(** A parked call stays parked, and the buffer as it is, while nothing
    signals the event. *)
Definition parked (i : nat) (d : deque Segment) (w : Loop) : Prop :=
  _event (output w) = false
  /\ _segments (output w) = d
  /\ nth_error (tasks w) i = Some Waiting.

(** Once the segment [s] was appended and the event signalled, the call
    is either due to be resumed or has returned [s], and any call that
    returned has left the sequence number of [s] in the cursor. *)
Definition served (i : nat) (s : Segment) (w : Loop) : Prop :=
  _event (output w) = false
  /\ PyList.index_last (items (_segments (output w))) = Ok s
  /\ (nth_error (tasks w) i = Some Woken
      \/ (nth_error (tasks w) i = Some (Done (Ok (Some s)))
          /\ _cursor (output w) = Some (sequence s))).

(** What holds of every state the loop can reach: the deque keeps its
    capacity and never holds more, and while the event is set the deque
    is empty and no call is parked. *)
Definition consistent (MAX_SEGMENTS : nat) (w : Loop) : Prop :=
  maxlen (_segments (output w)) = MAX_SEGMENTS
  /\ (List.length (items (_segments (output w))) <= MAX_SEGMENTS)%nat
  /\ (_event (output w) = true ->
      items (_segments (output w)) = []
      /\ forall i, nth_error (tasks w) i <> Some Waiting).

(** The state after a [cleanup] of [w0] for as long as nothing is
    appended: the event stays set, the deque empty, no call is parked,
    and a call that has returned after the [cleanup] returned [None]. *)
Definition ended (w0 w : Loop) : Prop :=
  _event (output w) = true
  /\ items (_segments (output w)) = []
  /\ (forall i, nth_error (tasks w) i <> Some Waiting)
  /\ (forall i r, nth_error (tasks w) i = Some (Done r) ->
        r = Ok None \/ nth_error (tasks w0) i = Some (Done r)).

(** A call of [recv] returns the segment [seg], taking the loop from [w]
    to [w']: a new call that returns at once, or a released call that is
    resumed. *)
Definition returns_segment (w w' : Loop) (seg : Segment) : Prop :=
  (w' = call_recv w /\ tasks w' = tasks w ++ [Done (Ok (Some seg))])
  \/ exists i,
       nth_error (tasks w) i = Some Woken
       /\ w' = resume i w
       /\ nth_error (tasks w') i = Some (Done (Ok (Some seg))).

(** The segment that the step [a] hands to a caller of [recv], read off
    the tasks of the loop: the result of the new task of a call, or of
    the released task that is resumed. *)
Definition returned (w : Loop) (a : action) : option Segment :=
  match a with
  | CallRecv =>
      match last (tasks (call_recv w)) Waiting with
      | Done (Ok (Some seg)) => Some seg
      | _ => None
      end
  | Resume i =>
      match nth_error (tasks w) i, nth_error (tasks (resume i w)) i with
      | Some Woken, Some (Done (Ok (Some seg))) => Some seg
      | _, _ => None
      end
  | Put _ | Cleanup => None
  end.

(** The segment most recently handed to any caller of [recv] along the
    steps [acts] from [w]; [seen] when none of them hands one out. *)
Fixpoint last_returned (MAX_SEGMENTS : nat) (acts : list action) (w : Loop)
    (seen : option Segment) : option Segment :=
  match acts with
  | [] => seen
  | a :: rest =>
      last_returned MAX_SEGMENTS rest (step MAX_SEGMENTS w a)
        (match returned w a with Some seg => Some seg | None => seen end)
  end.

(** The stream of a segment once [seek(0, io.SEEK_END)] was called on
    it: the same bytes, positioned at their end. *)
Definition at_end (b : BytesIO) : BytesIO :=
  mkBytesIO (getvalue b) (Z.of_nat (List.length (getvalue b))).

(** The text of the top-level manifest. *)
Definition master_text (bandwidth : Z) (codecs : string) : string :=
  (PyStr.join PyStr.newline
     [ "#EXTM3U";
       "#EXT-X-STREAM-INF:BANDWIDTH=" ++ PyStr.of_int bandwidth ++ ",CODECS="
         ++ PyStr.dquote ++ codecs ++ PyStr.dquote;
       "playlist.m3u8" ] ++ PyStr.newline)%string.

(** A method that only reads leaves the object as it was, whether it
    returns or raises. *)
Definition reads_only {A : Type} (m : M A) : Prop :=
  forall self, snd (m self) = self.

(** * Properties *)

(** ** Python floats and exact values *)

Lemma Qround_half_even_comp (p q : Q) : (p == q)%Q -> Qround_half_even p = Qround_half_even q.
Proof.
  intros H. unfold Qround_half_even.
  rewrite (Qfloor_comp _ _ H).
  assert (E : (p - inject_Z (Qfloor q) == q - inject_Z (Qfloor q))%Q) by (rewrite H; reflexivity).
  rewrite (Qcompare_comp _ _ E _ _ (Qeq_refl (1 # 2))). reflexivity.
Qed.

Lemma Qround_half_even_Z (z : Z) : Qround_half_even (inject_Z z) = z.
Proof.
  unfold Qround_half_even. rewrite Qfloor_Z.
  assert (E : (inject_Z z - inject_Z z == 0)%Q) by ring.
  rewrite (Qcompare_comp _ _ E _ _ (Qeq_refl (1 # 2))). reflexivity.
Qed.

Lemma Qround_half_even_near (q : Q) :
  (Qabs (inject_Z (Qround_half_even q) - q) <= 1 # 2)%Q.
Proof.
  unfold Qround_half_even.
  pose proof (Qfloor_le q) as Hlo. pose proof (Qlt_floor q) as Hhi.
  rewrite inject_Z_plus in Hhi.
  set (f := Qfloor q) in *.
  apply Qabs_Qle_condition.
  destruct (Qcompare_spec (q - inject_Z f) (1 # 2)) as [E|L|G].
  - destruct (Z.even f); rewrite ?inject_Z_plus; change (inject_Z 1) with 1%Q in *; split; lra.
  - change (inject_Z 1) with 1%Q in *; split; lra.
  - rewrite inject_Z_plus. change (inject_Z 1) with 1%Q in *; split; lra.
Qed.

Lemma div_half_even_spec (n d : Z) :
  0 < d -> PyFloat.div_half_even n d = Qround_half_even (inject_Z n / inject_Z d).
Proof.
  intros Hd. unfold PyFloat.div_half_even, Qround_half_even.
  rewrite <- Zdiv_Qdiv.
  assert (Hd' : (0 < inject_Z d)%Q).
  { change (inject_Z 0 < inject_Z d)%Q. rewrite <- Zlt_Qlt. exact Hd. }
  assert (E : (inject_Z n / inject_Z d - inject_Z (n / d) == inject_Z (n mod d) / inject_Z d)%Q).
  { rewrite (Z.div_mod n d) at 1 by lia.
    rewrite inject_Z_plus, inject_Z_mult. field. lra. }
  rewrite (Qcompare_comp _ _ E _ _ (Qeq_refl (1 # 2))).
  destruct (Z.compare_spec (2 * (n mod d)) d) as [He|Hl|Hg].
  - assert (Q1 : (inject_Z (n mod d) / inject_Z d == 1 # 2)%Q).
    { assert (E2 : (inject_Z d == (2 # 1) * inject_Z (n mod d))%Q)
        by (change (2 # 1)%Q with (inject_Z 2); rewrite <- inject_Z_mult, He; reflexivity).
      rewrite E2 in Hd' |- *. field. lra. }
    rewrite (proj1 (Qeq_alt _ _) Q1). reflexivity.
  - assert (Q1 : (inject_Z (n mod d) / inject_Z d < 1 # 2)%Q).
    { apply Qlt_shift_div_r; [exact Hd'|].
      rewrite Zlt_Qlt, inject_Z_mult in Hl. change (inject_Z 2) with (2 # 1)%Q in Hl. lra. }
    rewrite (proj1 (Qlt_alt _ _) Q1). reflexivity.
  - assert (Q1 : (1 # 2 < inject_Z (n mod d) / inject_Z d)%Q).
    { apply Qlt_shift_div_l; [exact Hd'|].
      rewrite Zlt_Qlt, inject_Z_mult in Hg. change (inject_Z 2) with (2 # 1)%Q in Hg. lra. }
    rewrite (proj1 (Qgt_alt _ _) Q1). reflexivity.
Qed.

Lemma two_power_Q (e : Z) : 0 <= e -> ((2 # 1) ^ e == inject_Z (2 ^ e))%Q.
Proof. intros H. rewrite (Zpower_Qpower 2 e H). reflexivity. Qed.

Lemma two_power_pos (e : Z) : (0 < (2 # 1) ^ e)%Q.
Proof. apply Qpower_0_lt. reflexivity. Qed.

Lemma value_int (m e : Z) :
  0 <= e -> (inject_Z m * (2 # 1) ^ e == inject_Z (m * 2 ^ e))%Q.
Proof. intros H. rewrite (two_power_Q e H), inject_Z_mult. reflexivity. Qed.

Lemma value_frac (m e : Z) :
  e < 0 -> (inject_Z m * (2 # 1) ^ e == inject_Z m / inject_Z (2 ^ (- e)))%Q.
Proof.
  intros H. replace e with (- - e) at 1 by lia.
  rewrite Qpower_opp, (two_power_Q (- e)) by lia. reflexivity.
Qed.

Lemma nearest_spec (m e : Z) :
  PyFloat.nearest m e = Qround_half_even (inject_Z m * (2 # 1) ^ e).
Proof.
  unfold PyFloat.nearest. destruct (Z.leb_spec 0 e) as [H|H].
  - rewrite (Qround_half_even_comp _ _ (value_int m e H)).
    symmetry. apply Qround_half_even_Z.
  - rewrite (Qround_half_even_comp _ _ (value_frac m e H)).
    apply div_half_even_spec. apply Z.pow_pos_nonneg; lia.
Qed.

Lemma nearest_nonneg (m e : Z) : 0 <= m -> 0 <= PyFloat.nearest m e.
Proof.
  intros Hm. unfold PyFloat.nearest. destruct (Z.leb_spec 0 e) as [H|H].
  - apply Z.mul_nonneg_nonneg; [exact Hm|]. apply Z.pow_nonneg; lia.
  - unfold PyFloat.div_half_even.
    assert (Hd : 0 < 2 ^ (- e)) by (apply Z.pow_pos_nonneg; lia).
    assert (Hq : 0 <= m / 2 ^ (- e)) by (apply Z.div_pos; assumption).
    destruct (2 * (m mod 2 ^ (- e)) ?= 2 ^ (- e)); [destruct (Z.even _)| |]; lia.
Qed.

Lemma digits2_bounds (m : positive) :
  2 ^ (Zpos (digits2_pos m) - 1) <= Zpos m < 2 ^ Zpos (digits2_pos m).
Proof.
  induction m as [p IH|p IH|]; simpl digits2_pos; [| |simpl; lia].
  - rewrite Pos2Z.inj_succ.
    replace (Z.succ (Zpos (digits2_pos p)) - 1) with (Z.succ (Zpos (digits2_pos p) - 1)) by lia.
    rewrite !Z.pow_succ_r by lia. lia.
  - rewrite Pos2Z.inj_succ.
    replace (Z.succ (Zpos (digits2_pos p)) - 1) with (Z.succ (Zpos (digits2_pos p) - 1)) by lia.
    rewrite !Z.pow_succ_r by lia. lia.
Qed.

Lemma valid_canonical (s : bool) (m : positive) (e : Z) :
  PyFloat.valid (S754_finite s m e) = true ->
  Z.max (Zpos (digits2_pos m) + e - 53) (- 1074) = e.
Proof.
  unfold PyFloat.valid, valid_binary, bounded, canonical_mantissa, fexp, emin.
  intros H. apply andb_true_iff in H as [H _]. apply Z.eqb_eq in H. exact H.
Qed.

Lemma canonical_lt (s1 s2 : bool) (m1 m2 : positive) (e1 e2 : Z) :
  PyFloat.valid (S754_finite s1 m1 e1) = true ->
  PyFloat.valid (S754_finite s2 m2 e2) = true ->
  e1 < e2 -> Zpos m1 < Zpos m2 * 2 ^ (e2 - e1).
Proof.
  intros H1 H2 He. apply valid_canonical in H1, H2.
  pose proof (digits2_bounds m1) as [_ B1]. pose proof (digits2_bounds m2) as [B2 _].
  assert (D2 : Zpos (digits2_pos m2) = 53) by lia.
  assert (D1 : Zpos (digits2_pos m1) <= 53) by lia.
  rewrite D2 in B2.
  assert (P1 : 2 ^ Zpos (digits2_pos m1) <= 2 ^ 53) by (apply Z.pow_le_mono_r; lia).
  assert (P2 : 2 ^ 1 <= 2 ^ (e2 - e1)) by (apply Z.pow_le_mono_r; lia).
  change (2 ^ 53) with (2 ^ (53 - 1) * 2 ^ 1) in P1. nia.
Qed.

Lemma value_scale (m e k : Z) :
  0 <= k -> (inject_Z m * (2 # 1) ^ (e + k) == inject_Z (m * 2 ^ k) * (2 # 1) ^ e)%Q.
Proof.
  intros H. rewrite Qpower_plus by discriminate.
  rewrite (two_power_Q k H), inject_Z_mult. ring.
Qed.

(** Values of positive finite floats order as the floats do. *)
Lemma value_lt_scaled (m1 m2 e1 e2 : Z) :
  e1 <= e2 -> m1 < m2 * 2 ^ (e2 - e1) ->
  (inject_Z m1 * (2 # 1) ^ e1 < inject_Z m2 * (2 # 1) ^ e2)%Q.
Proof.
  intros He H. replace e2 with (e1 + (e2 - e1)) at 1 by lia.
  rewrite value_scale by lia.
  apply Qmult_lt_r; [apply two_power_pos|]. rewrite <- Zlt_Qlt. exact H.
Qed.

Lemma ltb_true (x y : PyFloat.float) :
  PyFloat.positive_finite x = true -> PyFloat.positive_finite y = true ->
  PyFloat.ltb x y = true -> (PyFloat.to_Q x < PyFloat.to_Q y)%Q.
Proof.
  destruct x as [| | |[] m1 e1]; try discriminate.
  destruct y as [| | |[] m2 e2]; try discriminate.
  unfold PyFloat.positive_finite. intros V1 V2.
  unfold PyFloat.ltb, SFltb, SFcompare, PyFloat.to_Q, cond_Zopp.
  destruct (Z.compare_spec e1 e2) as [E|L|G]; try discriminate.
  - subst e2. intros H.
    assert (Hm : Zpos m1 < Zpos m2).
    { change (Pos.compare_cont Eq m1 m2) with (Pos.compare m1 m2) in H.
      destruct (Pos.compare_spec m1 m2); try discriminate; lia. }
    apply Qmult_lt_r; [apply two_power_pos|]. rewrite <- Zlt_Qlt. exact Hm.
  - intros _. apply value_lt_scaled; [lia|]. apply (canonical_lt false false); assumption.
Qed.

Lemma ltb_false (x y : PyFloat.float) :
  PyFloat.positive_finite x = true -> PyFloat.positive_finite y = true ->
  PyFloat.ltb x y = false -> (PyFloat.to_Q y <= PyFloat.to_Q x)%Q.
Proof.
  destruct x as [| | |[] m1 e1]; try discriminate.
  destruct y as [| | |[] m2 e2]; try discriminate.
  unfold PyFloat.positive_finite. intros V1 V2.
  unfold PyFloat.ltb, SFltb, SFcompare, PyFloat.to_Q, cond_Zopp.
  destruct (Z.compare_spec e1 e2) as [E|L|G]; try discriminate.
  - subst e2. intros H.
    assert (Hm : Zpos m2 <= Zpos m1).
    { change (Pos.compare_cont Eq m1 m2) with (Pos.compare m1 m2) in H.
      destruct (Pos.compare_spec m1 m2); try discriminate; lia. }
    apply Qmult_le_r; [apply two_power_pos|]. rewrite <- Zle_Qle. exact Hm.
  - intros _. apply Qlt_le_weak.
    apply value_lt_scaled; [lia|]. apply (canonical_lt false false); assumption.
Qed.

Lemma max_from_spec (l : list PyFloat.float) (c : PyFloat.float) :
  Forall (fun x => PyFloat.positive_finite x = true) (c :: l) ->
  In (PyFloat.max_from c l) (c :: l)
  /\ forall x, In x (c :: l) -> (PyFloat.to_Q x <= PyFloat.to_Q (PyFloat.max_from c l))%Q.
Proof.
  revert c; induction l as [|y l IH]; intros c H.
  - simpl. split; [left; reflexivity|]. intros x [->|[]]. apply Qle_refl.
  - inversion H as [|? ? Hc Hl]; subst. inversion Hl as [|? ? Hy Hl']; subst.
    cbn [PyFloat.max_from].
    destruct (PyFloat.ltb c y) eqn:E.
    + destruct (IH y Hl) as [Hin Hmax]. split; [right; exact Hin|].
      intros x [->|Hx]; [|apply Hmax, Hx].
      apply Qle_trans with (PyFloat.to_Q y).
      * apply Qlt_le_weak, ltb_true; assumption.
      * apply Hmax. left; reflexivity.
    + destruct (IH c (Forall_cons _ Hc Hl')) as [Hin Hmax]. split.
      * destruct Hin as [<-|Hin]; [left; reflexivity|right; right; exact Hin].
      * intros x [->|[->|Hx]].
        -- apply Hmax; left; reflexivity.
        -- apply Qle_trans with (PyFloat.to_Q c); [apply ltb_false; assumption|].
           apply Hmax; left; reflexivity.
        -- apply Hmax; right; exact Hx.
Qed.

(** ** The deque and the retention window (C4) *)

Section Retention.

Variable A : Type.

Lemma tl_skipn (n : nat) (l : list A) : tl (skipn n l) = skipn (S n) l.
Proof.
  revert l; induction n as [|n IH]; intros [|x l]; simpl; auto.
Qed.

Lemma skipn_app_short (n : nat) (l1 l2 : list A) :
  (n <= List.length l1)%nat -> skipn n (l1 ++ l2) = skipn n l1 ++ l2.
Proof.
  intros H. rewrite skipn_app.
  replace (n - List.length l1)%nat with 0%nat by lia. reflexivity.
Qed.

Lemma deque_append_items (d : deque A) (x : A) :
  items (deque_append d x) =
  if (maxlen d <? List.length (items d) + 1)%nat
  then tl (items d ++ [x]) else items d ++ [x].
Proof. unfold deque_append; simpl. rewrite length_app; reflexivity. Qed.

Lemma deque_append_maxlen (d : deque A) (x : A) :
  maxlen (deque_append d x) = maxlen d.
Proof. reflexivity. Qed.

(** Appending [ps] one by one to an empty deque of capacity [n] keeps
    the last [n] of them, in order. *)
Lemma deque_appends (n : nat) (ps : list A) :
  items (fold_left deque_append ps (deque_new n)) = skipn (List.length ps - n) ps
  /\ maxlen (fold_left deque_append ps (deque_new n)) = n.
Proof.
  induction ps as [|x ps IH] using rev_ind; [split; reflexivity|].
  rewrite fold_left_app. cbn [fold_left].
  destruct IH as [IHi IHm].
  rewrite deque_append_items, deque_append_maxlen, IHm, IHi.
  split; [|reflexivity].
  rewrite !length_app, length_skipn; simpl.
  destruct (Nat.ltb_spec n (List.length ps - (List.length ps - n) + 1)) as [Hlt|Hge].
  - destruct (Nat.eq_dec n 0) as [->|Hn].
    + rewrite !skipn_all2 by (rewrite ?length_app; simpl; lia).
      reflexivity.
    + rewrite <- (skipn_app_short (List.length ps - n)) by lia.
      rewrite tl_skipn. f_equal. lia.
  - replace (List.length ps + 1 - n)%nat with 0%nat by lia.
    replace (List.length ps - n)%nat with 0%nat by lia. reflexivity.
Qed.

End Retention.

Lemma ascending_tl (l : list Z) : ascending l -> ascending (tl l).
Proof. destruct l as [|x l]; simpl; tauto. Qed.

Lemma ascending_skipn (n : nat) (l : list Z) : ascending l -> ascending (skipn n l).
Proof.
  revert l; induction n as [|n IH]; intros l H; [exact H|].
  destruct l as [|x l]; [exact H|]. simpl. apply IH. apply (ascending_tl (x :: l) H).
Qed.

Lemma index_last_app {A : Type} (l : list A) (x : A) :
  PyList.index_last (l ++ [x]) = Ok x.
Proof. unfold PyList.index_last. rewrite rev_app_distr. reflexivity. Qed.

Lemma index_last_nonempty {A : Type} (l : list A) :
  l <> [] -> exists x, PyList.index_last l = Ok x.
Proof.
  intros H. destruct (exists_last H) as [l' [x ->]].
  exists x. apply index_last_app.
Qed.

(** ** What a call of [recv] does to the buffer *)

(** After its [await], [recv] returns [None] on an empty deque, and
    otherwise the last segment of the deque, which it records in the
    cursor; nothing else changes. *)
Lemma recv_rest_cases (self : HlsStreamOutput) :
  (items (_segments self) = [] /\ recv_rest self = (Ok None, self))
  \/ (exists seg, PyList.index_last (items (_segments self)) = Ok seg
        /\ recv_rest self =
           (Ok (Some seg), mkOutput (Some (sequence seg)) (_event self) (_segments self))).
Proof.
  unfold recv_rest, bind, gets, ret, lift, set_cursor.
  destruct (items (_segments self)) as [|s l] eqn:E; [left; split; reflexivity|].
  right. destruct (index_last_nonempty (s :: l)) as [seg Hseg]; [discriminate|].
  exists seg. split; [exact Hseg|].
  cbn. rewrite E. cbn in Hseg |- *. rewrite Hseg. reflexivity.
Qed.

Lemma recv_rest_frame (self : HlsStreamOutput) :
  _segments (snd (recv_rest self)) = _segments self
  /\ _event (snd (recv_rest self)) = _event self.
Proof.
  destruct (recv_rest_cases self) as [[_ ->]|[seg [_ ->]]]; split; reflexivity.
Qed.

(** ** Tasks of the loop *)

Lemma set_task_length (i : nat) (t : task) (l : list task) :
  List.length (set_task i t l) = List.length l.
Proof.
  revert i; induction l as [|x l IH]; intros [|i]; simpl; auto.
Qed.

Lemma set_task_same (i : nat) (t : task) (l : list task) :
  (i < List.length l)%nat -> nth_error (set_task i t l) i = Some t.
Proof.
  revert i; induction l as [|x l IH]; intros [|i] H; simpl in *; try lia; auto.
  apply IH; lia.
Qed.

Lemma set_task_other (i j : nat) (t : task) (l : list task) :
  i <> j -> nth_error (set_task i t l) j = nth_error l j.
Proof.
  revert i j; induction l as [|x l IH]; intros [|i] [|j] H; simpl; auto; try lia.
Qed.

Lemma nth_error_snoc_old {A : Type} (l : list A) (x : A) (i : nat) (y : A) :
  nth_error l i = Some y -> nth_error (l ++ [x]) i = Some y.
Proof.
  intros H. rewrite nth_error_app1; [exact H|].
  apply nth_error_Some. congruence.
Qed.

Lemma nth_error_snoc_new {A : Type} (l : list A) (x : A) :
  nth_error (l ++ [x]) (List.length l) = Some x.
Proof.
  rewrite nth_error_app2 by lia. rewrite Nat.sub_diag. reflexivity.
Qed.

Lemma nth_error_snoc_inv {A : Type} (l : list A) (x : A) (i : nat) (y : A) :
  nth_error (l ++ [x]) i = Some y -> nth_error l i = Some y \/ y = x.
Proof.
  intros H. destruct (Nat.lt_ge_cases i (List.length l)) as [Hlt|Hge].
  - rewrite nth_error_app1 in H by exact Hlt. left; exact H.
  - rewrite nth_error_app2 in H by exact Hge.
    destruct (i - List.length l)%nat as [|n]; simpl in H.
    + right; congruence.
    + destruct n; discriminate.
Qed.

Lemma max_default_fold_ge (l : list Z) (c : Z) :
  c <= fold_left (fun candidate item => if candidate <? item then item else candidate) l c
  /\ forall x, In x l ->
       x <= fold_left (fun candidate item => if candidate <? item then item else candidate) l c.
Proof.
  revert c; induction l as [|y l IH]; intros c; simpl.
  - split; [lia|tauto].
  - destruct (IH (if c <? y then y else c)) as [H1 H2].
    destruct (Z.ltb_spec c y); split; try lia.
    + intros x [->|Hx]; [exact H1|apply H2, Hx].
    + intros x [->|Hx]; [lia|apply H2, Hx].
Qed.

Lemma max_default_ge (l : list Z) (d x : Z) :
  In x l -> x <= PyList.max_default l d.
Proof.
  destruct l as [|y l]; simpl; [tauto|].
  destruct (max_default_fold_ge l y) as [H1 H2].
  intros [->|Hx]; [exact H1|apply H2, Hx].
Qed.

Lemma index_last_In {A : Type} (l : list A) (x : A) :
  PyList.index_last l = Ok x -> In x l.
Proof.
  unfold PyList.index_last. intros H.
  destruct (rev l) as [|y r] eqn:E; [discriminate|].
  injection H as ->. apply in_rev. rewrite E. left; reflexivity.
Qed.

Lemma deque_append_last {A : Type} (d : deque A) (x : A) :
  (0 < maxlen d)%nat -> (List.length (items d) <= maxlen d)%nat ->
  PyList.index_last (items (deque_append d x)) = Ok x
  /\ (List.length (items (deque_append d x)) <= maxlen d)%nat.
Proof.
  intros Hm Hl. rewrite deque_append_items.
  destruct (Nat.ltb_spec (maxlen d) (List.length (items d) + 1)).
  - destruct (items d) as [|y l] eqn:E; simpl in *; [lia|].
    split; [apply index_last_app|rewrite length_app; simpl; lia].
  - split; [apply index_last_app|rewrite length_app; simpl; lia].
Qed.

Section Protocol.

Variable MAX_SEGMENTS : nat.

Lemma call_recv_frame (w : Loop) :
  _segments (output (call_recv w)) = _segments (output w)
  /\ _event (output (call_recv w)) = _event (output w).
Proof.
  unfold call_recv.
  destruct (recv_waits (output w) && negb (_event (output w))); [split; reflexivity|].
  pose proof (recv_rest_frame (output w)) as H.
  destruct (recv_rest (output w)) as [r self]. exact H.
Qed.

Lemma resume_frame (i : nat) (w : Loop) :
  _segments (output (resume i w)) = _segments (output w)
  /\ _event (output (resume i w)) = _event (output w).
Proof.
  unfold resume.
  destruct (nth_error (tasks w) i) as [[| |r]|]; try (split; reflexivity).
  pose proof (recv_rest_frame (output w)) as H.
  destruct (recv_rest (output w)) as [r self]. exact H.
Qed.

Lemma async_put_segments (s : Segment) (w : Loop) :
  _segments (output (_async_put s w)) = deque_append (_segments (output w)) s.
Proof.
  unfold _async_put, event_clear, event_set; simpl.
  destruct (_event (output w)); reflexivity.
Qed.

Lemma async_put_event (s : Segment) (w : Loop) :
  _event (output (_async_put s w)) = false.
Proof. reflexivity. Qed.

(** Without a [cleanup], the deque after a run is the deque before it
    with the segments of the run appended. *)
Lemma run_segments (acts : list action) (w : Loop) :
  existsb is_cleanup acts = false ->
  _segments (output (run MAX_SEGMENTS acts w)) = fold_left deque_append (puts_of acts) (_segments (output w)).
Proof.
  revert w; induction acts as [|a acts IH]; intros w H; [reflexivity|].
  simpl in H. apply orb_false_iff in H as [Ha H].
  change (run MAX_SEGMENTS (a :: acts) w) with (run MAX_SEGMENTS acts (step MAX_SEGMENTS w a)).
  rewrite (IH _ H).
  destruct a as [|i|s|]; try discriminate.
  - change (step MAX_SEGMENTS w CallRecv) with (call_recv w).
    rewrite (proj1 (call_recv_frame w)); reflexivity.
  - change (step MAX_SEGMENTS w (Resume i)) with (resume i w).
    rewrite (proj1 (resume_frame i w)); reflexivity.
  - change (step MAX_SEGMENTS w (Put s)) with (_async_put s w).
    rewrite async_put_segments; reflexivity.
Qed.

(** C4: after any run of appends and [recv] calls on a fresh buffer of
    capacity [MAX_SEGMENTS], in which [k] segments were appended, the
    buffer holds the last [min k MAX_SEGMENTS] of them in insertion
    order, so [list()] has length [min k MAX_SEGMENTS], never more than
    the capacity, and is ascending when the producer's sequence numbers
    are; a further append on a full buffer drops exactly the head of the
    extended deque, and on a buffer that is not full drops nothing. *)
Theorem retention_window (acts : list action) :
  existsb is_cleanup acts = false ->
  let w := run MAX_SEGMENTS acts (start MAX_SEGMENTS) in
  let ps := puts_of acts in
  items (_segments (output w)) = skipn (List.length ps - MAX_SEGMENTS) ps
  /\ List.length (segments (output w)) = Nat.min (List.length ps) MAX_SEGMENTS
  /\ (List.length (segments (output w)) <= MAX_SEGMENTS)%nat
  /\ (ascending (map sequence ps) -> ascending (segments (output w)))
  /\ (forall s,
        items (_segments (output (_async_put s w))) =
        if (List.length (segments (output w)) =? MAX_SEGMENTS)%nat
        then tl (items (_segments (output w)) ++ [s])
        else items (_segments (output w)) ++ [s]).
Proof.
  intros H w ps.
  pose proof (run_segments acts (start MAX_SEGMENTS) H) as Hseg. fold w ps in Hseg.
  destruct (deque_appends Segment MAX_SEGMENTS ps) as [Hi Hm].
  change (_segments (output (start MAX_SEGMENTS))) with (@deque_new Segment MAX_SEGMENTS) in Hseg.
  assert (Hlen : List.length (segments (output w)) = Nat.min (List.length ps) MAX_SEGMENTS).
  { unfold segments. rewrite length_map, Hseg, Hi, length_skipn. lia. }
  split; [|split; [|split; [|split]]].
  - rewrite Hseg. exact Hi.
  - exact Hlen.
  - lia.
  - intros Hasc. unfold segments. rewrite Hseg, Hi, <- skipn_map.
    apply ascending_skipn, Hasc.
  - intros s. rewrite async_put_segments, deque_append_items.
    rewrite Hseg at 1. rewrite Hm.
    unfold segments in Hlen |- *. rewrite length_map in Hlen |- *.
    destruct (Nat.eqb_spec (List.length (items (_segments (output w)))) MAX_SEGMENTS) as [E|E];
      destruct (Nat.ltb_spec MAX_SEGMENTS (List.length (items (_segments (output w))) + 1));
      try reflexivity; lia.
Qed.

(** A property kept by every step that is not of a given kind is kept by
    every run without steps of that kind. *)
Lemma run_preserves (bad : action -> bool) (P : Loop -> Prop) :
  (forall w a, bad a = false -> P w -> P (step MAX_SEGMENTS w a)) ->
  forall acts w, existsb bad acts = false -> P w -> P (run MAX_SEGMENTS acts w).
Proof.
  intros Hstep acts; induction acts as [|a acts IH]; intros w H Hp; [exact Hp|].
  simpl in H. apply orb_false_iff in H as [Ha H].
  apply (IH (step MAX_SEGMENTS w a) H). apply Hstep; assumption.
Qed.

(** *** How a call of [recv] and a resumption go *)

Lemma call_recv_cases (w : Loop) :
  (recv_waits (output w) = true /\ _event (output w) = false
   /\ call_recv w = mkLoop (output w) (tasks w ++ [Waiting]))
  \/ ((recv_waits (output w) = false \/ _event (output w) = true)
      /\ call_recv w = mkLoop (snd (recv_rest (output w)))
                              (tasks w ++ [Done (fst (recv_rest (output w)))])).
Proof.
  unfold call_recv.
  destruct (recv_waits (output w)); destruct (_event (output w)); simpl;
    try (left; repeat split; reflexivity);
    right; (split; [auto|]); destruct (recv_rest (output w)); reflexivity.
Qed.

Lemma resume_cases (i : nat) (w : Loop) :
  (nth_error (tasks w) i = Some Woken
   /\ resume i w = mkLoop (snd (recv_rest (output w)))
                          (set_task i (Done (fst (recv_rest (output w)))) (tasks w)))
  \/ (nth_error (tasks w) i <> Some Woken /\ resume i w = w).
Proof.
  unfold resume.
  destruct (nth_error (tasks w) i) as [[| |r]|];
    try (right; split; [discriminate|reflexivity]).
  left. split; [reflexivity|]. destruct (recv_rest (output w)); reflexivity.
Qed.

Lemma parked_step (i : nat) (d : deque Segment) (w : Loop) (a : action) :
  is_signal a = false -> parked i d w -> parked i d (step MAX_SEGMENTS w a).
Proof.
  intros Ha (He & Hd & Ht). destruct a as [|j|s|]; try discriminate.
  - change (step MAX_SEGMENTS w CallRecv) with (call_recv w).
    destruct (call_recv_frame w) as [Hs Hev].
    split; [congruence|split; [congruence|]].
    destruct (call_recv_cases w) as [(_ & _ & ->)|(_ & ->)];
      apply nth_error_snoc_old, Ht.
  - change (step MAX_SEGMENTS w (Resume j)) with (resume j w).
    destruct (resume_frame j w) as [Hs Hev].
    split; [congruence|split; [congruence|]].
    destruct (resume_cases j w) as [(Hj & ->)|(_ & ->)]; [|exact Ht].
    simpl. rewrite set_task_other; [exact Ht|]. congruence.
Qed.

Lemma parked_run (i : nat) (d : deque Segment) (acts : list action) (w : Loop) :
  existsb is_signal acts = false -> parked i d w -> parked i d (run MAX_SEGMENTS acts w).
Proof.
  apply (run_preserves is_signal (parked i d)). intros; apply parked_step; assumption.
Qed.

Lemma recv_rest_served (s : Segment) (self : HlsStreamOutput) :
  PyList.index_last (items (_segments self)) = Ok s ->
  recv_rest self = (Ok (Some s), mkOutput (Some (sequence s)) (_event self) (_segments self)).
Proof.
  intros H. destruct (recv_rest_cases self) as [[E _]|[seg [Hseg ->]]].
  - rewrite E in H. discriminate.
  - rewrite Hseg in H. injection H as ->. reflexivity.
Qed.

Lemma served_step (i : nat) (s : Segment) (w : Loop) (a : action) :
  is_signal a = false -> served i s w -> served i s (step MAX_SEGMENTS w a).
Proof.
  intros Ha (He & Hl & Ht). destruct a as [|j|x|]; try discriminate.
  - change (step MAX_SEGMENTS w CallRecv) with (call_recv w).
    destruct (call_recv_cases w) as [(_ & _ & ->)|(_ & ->)].
    + split; [exact He|split; [exact Hl|]]. simpl.
      destruct Ht as [Ht|[Ht Hc]]; [left|right; split; [|exact Hc]];
        apply nth_error_snoc_old, Ht.
    + rewrite (recv_rest_served s _ Hl). simpl.
      split; [exact He|split; [exact Hl|]].
      destruct Ht as [Ht|[Ht Hc]]; [left|right; split; [|reflexivity]];
        apply nth_error_snoc_old, Ht.
  - change (step MAX_SEGMENTS w (Resume j)) with (resume j w).
    destruct (resume_cases j w) as [(Hj & ->)|(_ & ->)];
      [|split; [exact He|split; [exact Hl|exact Ht]]].
    rewrite (recv_rest_served s _ Hl). simpl.
    split; [exact He|split; [exact Hl|]]. simpl.
    destruct (Nat.eq_dec j i) as [->|Hji].
    + right. split; [|reflexivity]. apply set_task_same.
      apply nth_error_Some. congruence.
    + rewrite set_task_other by exact Hji.
      destruct Ht as [Ht|[Ht Hc]]; [left; exact Ht|right; split; [exact Ht|reflexivity]].
Qed.

Lemma served_run (i : nat) (s : Segment) (acts : list action) (w : Loop) :
  existsb is_signal acts = false -> served i s w -> served i s (run MAX_SEGMENTS acts w).
Proof.
  apply (run_preserves is_signal (served i s)). intros; apply served_step; assumption.
Qed.

Lemma put_serves (i : nat) (s : Segment) (w : Loop) :
  (0 < maxlen (_segments (output w)))%nat ->
  (List.length (items (_segments (output w))) <= maxlen (_segments (output w)))%nat ->
  parked i (_segments (output w)) w ->
  served i s (_async_put s w).
Proof.
  intros Hm Hl (He & _ & Ht).
  split; [reflexivity|split].
  - rewrite async_put_segments. apply deque_append_last; assumption.
  - left. unfold _async_put, event_clear, event_set. simpl. rewrite He. simpl.
    rewrite nth_error_map, Ht. reflexivity.
Qed.

Lemma resume_served (i : nat) (s : Segment) (w : Loop) :
  served i s w ->
  nth_error (tasks (resume i w)) i = Some (Done (Ok (Some s)))
  /\ _cursor (output (resume i w)) = Some (sequence s)
  /\ PyList.index_last (items (_segments (output (resume i w)))) = Ok s.
Proof.
  intros (He & Hl & Ht).
  destruct (resume_cases i w) as [(Hi & ->)|(Hi & ->)].
  - rewrite (recv_rest_served s _ Hl). simpl.
    split; [|split; [reflexivity|exact Hl]].
    apply set_task_same. apply nth_error_Some. congruence.
  - destruct Ht as [Ht|[Ht Hc]]; [contradiction|].
    split; [exact Ht|split; [exact Hc|exact Hl]].
Qed.

(** A parked call, one append, and the resumption of the call, with
    other calls of [recv] and other resumptions in between. *)
Lemma wait_then_put (i : nat) (s : Segment) (mid1 mid2 : list action) (w : Loop) :
  (0 < maxlen (_segments (output w)))%nat ->
  (List.length (items (_segments (output w))) <= maxlen (_segments (output w)))%nat ->
  existsb is_signal mid1 = false ->
  existsb is_signal mid2 = false ->
  parked i (_segments (output w)) w ->
  let w' := run MAX_SEGMENTS (mid1 ++ [Put s] ++ mid2 ++ [Resume i]) w in
  nth_error (tasks w') i = Some (Done (Ok (Some s)))
  /\ _cursor (output w') = Some (sequence s)
  /\ PyList.index_last (items (_segments (output w'))) = Ok s.
Proof.
  intros Hm Hl H1 H2 Hp. unfold run.
  rewrite !fold_left_app. cbn [fold_left].
  pose proof (parked_run i _ mid1 w H1 Hp) as Hp1.
  unfold run in Hp1.
  set (w1 := fold_left (step MAX_SEGMENTS) mid1 w) in *.
  assert (Hs1 : _segments (output w1) = _segments (output w)) by apply Hp1.
  change (step MAX_SEGMENTS w1 (Put s)) with (_async_put s w1).
  assert (Hsv : served i s (_async_put s w1)).
  { apply put_serves; rewrite ?Hs1; assumption. }
  pose proof (served_run i s mid2 _ H2 Hsv) as Hsv2.
  unfold run in Hsv2.
  apply (resume_served i s _ Hsv2).
Qed.

(** *** What holds of every buffer the loop can reach *)

Lemma deque_append_bounded {A : Type} (d : deque A) (x : A) :
  (List.length (items d) <= maxlen d)%nat ->
  (List.length (items (deque_append d x)) <= maxlen d)%nat.
Proof.
  intros H. rewrite deque_append_items.
  destruct (Nat.ltb_spec (maxlen d) (List.length (items d) + 1)).
  - destruct (items d); simpl in *; [lia|]. rewrite length_app; simpl; lia.
  - rewrite length_app; simpl; lia.
Qed.

Lemma wake_not_waiting (l : list task) (i : nat) :
  nth_error (map wake l) i <> Some Waiting.
Proof.
  rewrite nth_error_map. destruct (nth_error l i) as [[| |r]|]; simpl; discriminate.
Qed.

Lemma consistent_step (w : Loop) (a : action) :
  consistent MAX_SEGMENTS w -> consistent MAX_SEGMENTS (step MAX_SEGMENTS w a).
Proof.
  intros (Hm & Hl & He). destruct a as [|j|s|].
  - change (step MAX_SEGMENTS w CallRecv) with (call_recv w).
    destruct (call_recv_frame w) as [Hs Hev]. unfold consistent.
    rewrite Hs, Hev. split; [exact Hm|split; [exact Hl|]].
    intros Ht. destruct (He Ht) as [Hi Hw]. split; [exact Hi|].
    intros i Hi'.
    destruct (call_recv_cases w) as [(_ & Hf & _)|(_ & E)]; [congruence|].
    rewrite E in Hi'. simpl in Hi'.
    apply nth_error_snoc_inv in Hi' as [Hi'|Hi']; [exact (Hw i Hi')|discriminate].
  - change (step MAX_SEGMENTS w (Resume j)) with (resume j w).
    destruct (resume_frame j w) as [Hs Hev]. unfold consistent.
    rewrite Hs, Hev. split; [exact Hm|split; [exact Hl|]].
    intros Ht. destruct (He Ht) as [Hi Hw]. split; [exact Hi|].
    intros i Hi'.
    destruct (resume_cases j w) as [(Hj & E)|(_ & E)]; rewrite E in Hi'; [|exact (Hw i Hi')].
    simpl in Hi'. destruct (Nat.eq_dec j i) as [->|Hji].
    + rewrite set_task_same in Hi' by (apply nth_error_Some; congruence). discriminate.
    + rewrite set_task_other in Hi' by exact Hji. exact (Hw i Hi').
  - change (step MAX_SEGMENTS w (Put s)) with (_async_put s w). unfold consistent.
    rewrite async_put_segments, async_put_event, deque_append_maxlen.
    split; [exact Hm|split; [|discriminate]].
    rewrite <- Hm. apply deque_append_bounded. rewrite Hm. exact Hl.
  - change (step MAX_SEGMENTS w Cleanup) with (cleanup MAX_SEGMENTS w). unfold consistent, cleanup, event_set.
    destruct (_event (output w)) eqn:Ev; simpl.
    + split; [reflexivity|split; [lia|]]. intros _. split; [reflexivity|]. apply He; reflexivity.
    + split; [reflexivity|split; [lia|]]. intros _. split; [reflexivity|].
      apply wake_not_waiting.
Qed.

Lemma consistent_run (acts : list action) (w : Loop) :
  consistent MAX_SEGMENTS w -> consistent MAX_SEGMENTS (run MAX_SEGMENTS acts w).
Proof.
  intros H. apply (run_preserves (fun _ => false) (consistent MAX_SEGMENTS)); auto.
  - intros; apply consistent_step; assumption.
  - induction acts; simpl; auto.
Qed.

Lemma reachable_consistent (w : Loop) : reachable MAX_SEGMENTS w -> consistent MAX_SEGMENTS w.
Proof.
  intros [acts ->]. apply consistent_run.
  split; [reflexivity|split; [simpl; lia|discriminate]].
Qed.

(** C5: on a fresh buffer (empty, nothing appended yet) a call of [recv]
    parks on the event; when exactly one segment [s] is appended
    afterwards and the call is resumed, it returns [s], and the cursor is
    then the sequence number of [s].  Other calls of [recv] and other
    resumptions may come in between. *)
Theorem recv_before_first_append (w : Loop) (s : Segment) (mid1 mid2 : list action) :
  (0 < MAX_SEGMENTS)%nat ->
  output w = init MAX_SEGMENTS ->
  existsb is_signal mid1 = false ->
  existsb is_signal mid2 = false ->
  let i := List.length (tasks w) in
  let w' := run MAX_SEGMENTS (CallRecv :: mid1 ++ [Put s] ++ mid2 ++ [Resume i]) w in
  nth_error (tasks (run MAX_SEGMENTS (CallRecv :: mid1) w)) i = Some Waiting
  /\ nth_error (tasks w') i = Some (Done (Ok (Some s)))
  /\ _cursor (output w') = Some (sequence s).
Proof.
  intros Hm Hw H1 H2 i w'.
  assert (Hc : call_recv w = mkLoop (output w) (tasks w ++ [Waiting])).
  { unfold call_recv. rewrite Hw. reflexivity. }
  assert (Hp : parked i (_segments (output (call_recv w))) (call_recv w)).
  { rewrite Hc. simpl. split; [rewrite Hw; reflexivity|split; [reflexivity|]].
    apply nth_error_snoc_new. }
  split.
  - change (run MAX_SEGMENTS (CallRecv :: mid1) w) with (run MAX_SEGMENTS mid1 (call_recv w)).
    apply (parked_run i _ mid1 _ H1 Hp).
  - subst w'. change (run MAX_SEGMENTS (CallRecv :: ?l) w) with (run MAX_SEGMENTS l (call_recv w)).
    assert (Hs : _segments (output (call_recv w)) = deque_new MAX_SEGMENTS).
    { rewrite Hc. simpl. rewrite Hw. reflexivity. }
    destruct (wait_then_put i s mid1 mid2 (call_recv w)) as (Ht & Hcur & _);
      rewrite ?Hs; simpl; try assumption; try lia.
    + rewrite <- Hs. exact Hp.
    + split; assumption.
Qed.

(** C7: on a buffer the loop can reach that holds segments, a call of
    [recv] made while the cursor has no position does not return: it
    parks on the event, and stays parked whatever other calls and
    resumptions follow; once a segment is appended (the signal) and the
    call is resumed, it returns the newest segment then in the buffer. *)
Theorem recv_waits_on_nonempty_buffer
    (w : Loop) (s : Segment) (mid1 mid2 : list action) :
  reachable MAX_SEGMENTS w ->
  items (_segments (output w)) <> [] ->
  _cursor (output w) = None ->
  existsb is_signal mid1 = false ->
  existsb is_signal mid2 = false ->
  let i := List.length (tasks w) in
  let w' := run MAX_SEGMENTS (CallRecv :: mid1 ++ [Put s] ++ mid2 ++ [Resume i]) w in
  call_recv w = mkLoop (output w) (tasks w ++ [Waiting])
  /\ nth_error (tasks (run MAX_SEGMENTS (CallRecv :: mid1) w)) i = Some Waiting
  /\ nth_error (tasks w') i = Some (Done (Ok (Some s)))
  /\ PyList.index_last (items (_segments (output w'))) = Ok s.
Proof.
  intros Hr Hne Hcur H1 H2 i w'.
  destruct (reachable_consistent w Hr) as (Hm & Hl & He).
  assert (Hev : _event (output w) = false).
  { destruct (_event (output w)); [|reflexivity]. destruct (He eq_refl) as [E _]. contradiction. }
  assert (Hc : call_recv w = mkLoop (output w) (tasks w ++ [Waiting])).
  { unfold call_recv, recv_waits. rewrite Hcur, Hev. reflexivity. }
  assert (Hp : parked i (_segments (output (call_recv w))) (call_recv w)).
  { rewrite Hc. simpl. split; [exact Hev|split; [reflexivity|]].
    apply nth_error_snoc_new. }
  split; [exact Hc|split].
  - change (run MAX_SEGMENTS (CallRecv :: mid1) w) with (run MAX_SEGMENTS mid1 (call_recv w)).
    apply (parked_run i _ mid1 _ H1 Hp).
  - subst w'. change (run MAX_SEGMENTS (CallRecv :: ?l) w) with (run MAX_SEGMENTS l (call_recv w)).
    assert (Hs : _segments (output (call_recv w)) = _segments (output w)).
    { rewrite Hc. reflexivity. }
    destruct (wait_then_put i s mid1 mid2 (call_recv w)) as (Ht & _ & Hlast);
      rewrite ?Hs, ?Hm; try assumption.
    + destruct (items (_segments (output w))); [contradiction|simpl in Hl; lia].
    + rewrite <- Hs. exact Hp.
    + split; assumption.
Qed.

(** *** After [cleanup] *)

Lemma wake_done (l : list task) (i : nat) (r : result (option Segment)) :
  nth_error (map wake l) i = Some (Done r) -> nth_error l i = Some (Done r).
Proof.
  rewrite nth_error_map. destruct (nth_error l i) as [[| |r']|]; simpl; congruence.
Qed.

Lemma ended_cleanup (w : Loop) : consistent MAX_SEGMENTS w -> ended w (cleanup MAX_SEGMENTS w).
Proof.
  intros (_ & _ & He). unfold ended, cleanup, event_set.
  destruct (_event (output w)) eqn:Ev; simpl.
  - rewrite Ev. split; [reflexivity|split; [reflexivity|split]].
    + apply He; reflexivity.
    + intros i r H. right; exact H.
  - split; [reflexivity|split; [reflexivity|split]].
    + apply wake_not_waiting.
    + intros i r H. right. apply wake_done, H.
Qed.

Lemma recv_rest_empty (self : HlsStreamOutput) :
  items (_segments self) = [] -> recv_rest self = (Ok None, self).
Proof.
  intros E. destruct (recv_rest_cases self) as [[_ H]|[seg [H _]]]; [exact H|].
  rewrite E in H. discriminate.
Qed.

Lemma call_recv_ended (w0 w : Loop) :
  ended w0 w -> call_recv w = mkLoop (output w) (tasks w ++ [Done (Ok None)]).
Proof.
  intros (He & Hi & _). unfold call_recv.
  rewrite He, andb_false_r, (recv_rest_empty _ Hi). reflexivity.
Qed.

Lemma resume_ended (w0 w : Loop) (i : nat) :
  ended w0 w -> nth_error (tasks w) i = Some Woken ->
  resume i w = mkLoop (output w) (set_task i (Done (Ok None)) (tasks w)).
Proof.
  intros (_ & Hi & _) Ht. unfold resume.
  rewrite Ht, (recv_rest_empty _ Hi). reflexivity.
Qed.

Lemma ended_step (w0 w : Loop) (a : action) :
  is_put a = false -> ended w0 w -> ended w0 (step MAX_SEGMENTS w a).
Proof.
  intros Ha H. pose proof H as (He & Hi & Hw & Hd).
  destruct a as [|j|s|]; try discriminate.
  - change (step MAX_SEGMENTS w CallRecv) with (call_recv w).
    rewrite (call_recv_ended w0 w H). unfold ended; simpl.
    split; [exact He|split; [exact Hi|split]].
    + intros i Hi'. apply nth_error_snoc_inv in Hi' as [Hi'|Hi'];
        [exact (Hw i Hi')|discriminate].
    + intros i r Hr. apply nth_error_snoc_inv in Hr as [Hr|Hr];
        [exact (Hd i r Hr)|left; congruence].
  - change (step MAX_SEGMENTS w (Resume j)) with (resume j w).
    destruct (resume_cases j w) as [(Hj & _)|(_ & ->)]; [|exact H].
    rewrite (resume_ended w0 w j H Hj). unfold ended; simpl.
    assert (Hlt : (j < List.length (tasks w))%nat) by (apply nth_error_Some; congruence).
    split; [exact He|split; [exact Hi|split]].
    + intros i Hi'. destruct (Nat.eq_dec j i) as [->|Hji].
      * rewrite set_task_same in Hi' by exact Hlt. discriminate.
      * rewrite set_task_other in Hi' by exact Hji. exact (Hw i Hi').
    + intros i r Hr. destruct (Nat.eq_dec j i) as [->|Hji].
      * rewrite set_task_same in Hr by exact Hlt. left; congruence.
      * rewrite set_task_other in Hr by exact Hji. exact (Hd i r Hr).
  - change (step MAX_SEGMENTS w Cleanup) with (cleanup MAX_SEGMENTS w).
    unfold ended, cleanup, event_set. rewrite He. simpl.
    split; [exact He|split; [reflexivity|split; assumption]].
Qed.

Lemma ended_run (w0 : Loop) (acts : list action) (w : Loop) :
  existsb is_put acts = false -> ended w0 w -> ended w0 (run MAX_SEGMENTS acts w).
Proof.
  apply (run_preserves is_put (ended w0)). intros; apply ended_step; assumption.
Qed.


(** *** The cursor is a field of the buffer *)

Lemma recv_rest_returns (self self' : HlsStreamOutput) (seg : Segment) :
  recv_rest self = (Ok (Some seg), self') ->
  self' = mkOutput (Some (sequence seg)) (_event self) (_segments self)
  /\ recv_waits self' = true.
Proof.
  intros H. destruct (recv_rest_cases self) as [[_ E]|[seg' [Hl E]]];
    rewrite E in H; [discriminate|].
  injection H as -> <-. split; [reflexivity|].
  unfold recv_waits; simpl. apply Z.leb_le. apply max_default_ge.
  unfold segments; simpl. apply in_map, index_last_In, Hl.
Qed.

Lemma returns_segment_state (w w' : Loop) (seg : Segment) :
  returns_segment w w' seg ->
  output w' = mkOutput (Some (sequence seg)) (_event (output w)) (_segments (output w))
  /\ recv_waits (output w') = true.
Proof.
  intros [[-> H]|(i & Ht & -> & H)].
  - destruct (call_recv_cases w) as [(_ & _ & E)|(_ & E)]; rewrite E in H |- *;
      simpl in H |- *; apply app_inv_head in H; [discriminate|].
    injection H as H.
    destruct (recv_rest (output w)) as [r self] eqn:Er. simpl in H; subst r.
    destruct (recv_rest_returns _ _ _ Er) as [-> Hw]. split; [reflexivity|exact Hw].
  - destruct (resume_cases i w) as [(_ & E)|(Hn & _)]; [|contradiction].
    rewrite E in H |- *. simpl in H |- *.
    rewrite set_task_same in H by (apply nth_error_Some; congruence).
    injection H as H.
    destruct (recv_rest (output w)) as [r self] eqn:Er. simpl in H; subst r.
    destruct (recv_rest_returns _ _ _ Er) as [-> Hw]. split; [reflexivity|exact Hw].
Qed.

(** Nothing but a call of [recv] that returns a segment writes the
    cursor. *)
Lemma cursor_written_by_recv_only (w : Loop) (a : action) :
  _cursor (output (step MAX_SEGMENTS w a)) = _cursor (output w)
  \/ exists seg,
       returns_segment w (step MAX_SEGMENTS w a) seg
       /\ _cursor (output (step MAX_SEGMENTS w a)) = Some (sequence seg).
Proof.
  destruct a as [|j|s|].
  - change (step MAX_SEGMENTS w CallRecv) with (call_recv w).
    destruct (call_recv_cases w) as [(_ & _ & E)|(_ & E)]; [left; rewrite E; reflexivity|].
    destruct (recv_rest_cases (output w)) as [[_ Er]|[seg [_ Er]]].
    + left. rewrite E, Er. reflexivity.
    + right. exists seg. split; [left; split; [reflexivity|]|]; rewrite E, Er; reflexivity.
  - change (step MAX_SEGMENTS w (Resume j)) with (resume j w).
    destruct (resume_cases j w) as [(Hj & E)|(_ & E)]; [|left; rewrite E; reflexivity].
    destruct (recv_rest_cases (output w)) as [[_ Er]|[seg [_ Er]]].
    + left. rewrite E, Er. reflexivity.
    + right. exists seg. split; [|rewrite E, Er; reflexivity].
      right. exists j. split; [exact Hj|split; [reflexivity|]].
      rewrite E, Er. simpl. apply set_task_same. apply nth_error_Some. congruence.
  - left. unfold step, _async_put, event_clear, event_set. simpl.
    destruct (_event (output w)); reflexivity.
  - left. unfold step, cleanup, event_set. destruct (_event (output w)); reflexivity.
Qed.

Lemma signals_keep_cursor (c : option Z) (acts : list action) (w : Loop) :
  existsb (fun a => negb (is_signal a)) acts = false ->
  _cursor (output w) = c ->
  _cursor (output (run MAX_SEGMENTS acts w)) = c.
Proof.
  apply (run_preserves (fun a => negb (is_signal a)) (fun w0 => _cursor (output w0) = c)).
  intros w0 a Ha H.
  destruct (cursor_written_by_recv_only w0 a) as [E|(seg & Hr & _)]; [congruence|].
  destruct a as [|j|s|]; try discriminate;
    destruct Hr as [[_ Hr]|(i & Hi & _ & Hr)].
  - unfold step, _async_put, event_clear, event_set in Hr. simpl in Hr.
    destruct (_event (output w0)); simpl in Hr.
    + apply (f_equal (@List.length task)) in Hr. rewrite length_app in Hr. simpl in Hr. lia.
    + apply (f_equal (@List.length task)) in Hr.
      rewrite length_app, length_map in Hr. simpl in Hr. lia.
  - unfold step, _async_put, event_clear, event_set in Hr. simpl in Hr.
    destruct (_event (output w0)); simpl in Hr; [congruence|].
    rewrite nth_error_map, Hi in Hr. discriminate.
  - unfold step, cleanup, event_set in Hr.
    destruct (_event (output w0)); simpl in Hr.
    + apply (f_equal (@List.length task)) in Hr. rewrite length_app in Hr. simpl in Hr. lia.
    + apply (f_equal (@List.length task)) in Hr.
      rewrite length_app, length_map in Hr. simpl in Hr. lia.
  - unfold step, cleanup, event_set in Hr.
    destruct (_event (output w0)); simpl in Hr; [congruence|].
    rewrite nth_error_map, Hi in Hr. discriminate.
Qed.

(** A step writes the cursor exactly when it hands a segment to a
    caller of [recv], and then writes that segment's sequence number. *)
Lemma step_cursor (w : Loop) (a : action) :
  _cursor (output (step MAX_SEGMENTS w a))
  = match returned w a with
    | Some seg => Some (sequence seg)
    | None => _cursor (output w)
    end.
Proof.
  destruct a as [|j|s|].
  - change (step MAX_SEGMENTS w CallRecv) with (call_recv w). unfold returned.
    destruct (call_recv_cases w) as [(_ & _ & E)|(_ & E)]; rewrite E; cbn [tasks output];
      rewrite last_last; [reflexivity|].
    destruct (recv_rest_cases (output w)) as [[_ Er]|[seg [_ Er]]]; rewrite Er; reflexivity.
  - change (step MAX_SEGMENTS w (Resume j)) with (resume j w). unfold returned.
    destruct (resume_cases j w) as [(Hj & E)|(Hn & E)].
    + rewrite Hj, E. cbn [tasks output].
      rewrite set_task_same by (apply nth_error_Some; congruence).
      destruct (recv_rest_cases (output w)) as [[_ Er]|[seg [_ Er]]]; rewrite Er; reflexivity.
    + rewrite E. destruct (nth_error (tasks w) j) as [[| |r]|]; try reflexivity.
  - unfold step, _async_put, event_clear, event_set. simpl.
    destruct (_event (output w)); reflexivity.
  - unfold step, cleanup, event_set. destruct (_event (output w)); reflexivity.
Qed.

Lemma run_cursor (acts : list action) (w : Loop) (seen : option Segment) :
  _cursor (output w) = option_map sequence seen ->
  _cursor (output (run MAX_SEGMENTS acts w))
  = option_map sequence (last_returned MAX_SEGMENTS acts w seen).
Proof.
  revert w seen; induction acts as [|a acts IH]; intros w seen H; [exact H|].
  cbn [last_returned]. change (run MAX_SEGMENTS (a :: acts) w)
    with (run MAX_SEGMENTS acts (step MAX_SEGMENTS w a)).
  apply IH. rewrite step_cursor. destruct (returned w a); [reflexivity|exact H].
Qed.

(** C10: the cursor is one field of the buffer, written by every call of
    [recv] that returns a segment and read by every call of [recv].  When
    a call returns the segment [seg], at once or on being resumed, the
    cursor of the buffer is the sequence number of [seg] afterwards, and
    the deque (its segments, their order, its capacity) and the event are
    as before.  The cursor keeps that value whatever is appended or torn
    down next, and the next call of [recv], whoever makes it, starts
    from it: it parks exactly when that value is at most the largest
    retained sequence number (0 on an empty buffer) and the event is
    clear, and otherwise returns at once.  Whatever steps follow, calls
    of [recv] by anyone among them, the cursor is the sequence number of
    the segment most recently returned to any caller.  No call of [recv],
    however it goes, changes the deque, and no step but a call of [recv]
    that returns a segment changes the cursor. *)
Theorem recv_shared_cursor (w w' : Loop) (seg : Segment) (acts : list action) :
  returns_segment w w' seg ->
  existsb (fun a => negb (is_signal a)) acts = false ->
  let later := run MAX_SEGMENTS acts w' in
  _cursor (output w') = Some (sequence seg)
  /\ recv_waits (output w') = true
  /\ _segments (output w') = _segments (output w)
  /\ _event (output w') = _event (output w)
  /\ _cursor (output later) = Some (sequence seg)
  /\ call_recv later
     = (if (sequence seg <=? PyList.max_default (segments (output later)) 0)
           && negb (_event (output later))
        then mkLoop (output later) (tasks later ++ [Waiting])
        else mkLoop (snd (recv_rest (output later)))
                    (tasks later ++ [Done (fst (recv_rest (output later)))]))
  /\ (forall more,
        _cursor (output (run MAX_SEGMENTS more w'))
        = option_map sequence (last_returned MAX_SEGMENTS more w' (Some seg)))
  /\ (forall w0 j,
        _segments (output (call_recv w0)) = _segments (output w0)
        /\ _segments (output (resume j w0)) = _segments (output w0))
  /\ (forall w0 a,
        _cursor (output (step MAX_SEGMENTS w0 a)) = _cursor (output w0)
        \/ exists seg0,
             returns_segment w0 (step MAX_SEGMENTS w0 a) seg0
             /\ _cursor (output (step MAX_SEGMENTS w0 a)) = Some (sequence seg0)).
Proof.
  intros Hr Hacts later.
  destruct (returns_segment_state w w' seg Hr) as [Ho Hw].
  assert (Hc : _cursor (output w') = Some (sequence seg)) by (rewrite Ho; reflexivity).
  assert (Hl : _cursor (output later) = Some (sequence seg))
    by (apply signals_keep_cursor; assumption).
  split; [exact Hc|]. split; [exact Hw|].
  split; [rewrite Ho; reflexivity|]. split; [rewrite Ho; reflexivity|].
  split; [exact Hl|]. split; [|split; [|split]].
  - unfold call_recv, recv_waits. rewrite Hl.
    destruct (recv_rest (output later)) as [r self]. reflexivity.
  - intros more. apply run_cursor. exact Hc.
  - intros w0 j. split; [apply call_recv_frame|apply resume_frame].
  - apply cursor_written_by_recv_only.
Qed.

End Protocol.

(** ** [target_duration] (C1) *)

(** C1, as the code has it: on a buffer whose durations are positive
    finite floats, [target_duration] returns an integer that is at least
    1; it is 1 on an empty buffer, and otherwise the largest duration
    among the retained segments rounded to the nearest integer (ties to
    even), and 1 when that rounds to 0.  It is not the ceiling. *)
Theorem target_duration_rounds (self : HlsStreamOutput) :
  Forall (fun s => PyFloat.positive_finite (duration s) = true) (items (_segments self)) ->
  exists t,
    target_duration self = Ok t
    /\ 1 <= t
    /\ (items (_segments self) = [] -> t = 1)
    /\ (items (_segments self) <> [] ->
        exists s, In s (items (_segments self))
          /\ (forall s', In s' (items (_segments self)) ->
                (PyFloat.to_Q (duration s') <= PyFloat.to_Q (duration s))%Q)
          /\ t = Z.max 1 (Qround_half_even (PyFloat.to_Q (duration s)))
          /\ (Qabs (inject_Z (Qround_half_even (PyFloat.to_Q (duration s)))
                    - PyFloat.to_Q (duration s)) <= 1 # 2)%Q).
Proof.
  intros Hpos. unfold target_duration.
  destruct (items (_segments self)) as [|s0 l] eqn:E.
  - exists 1. simpl. repeat split; try lia. intros H; contradiction.
  - cbn [List.length Nat.eqb map PyFloat.max].
    assert (Hd : Forall (fun x => PyFloat.positive_finite x = true)
                        (duration s0 :: map duration l)).
    { change (duration s0 :: map duration l) with (map duration (s0 :: l)).
      apply Forall_map. exact Hpos. }
    destruct (max_from_spec (map duration l) (duration s0) Hd) as [Hin Hmax].
    change (duration s0 :: map duration l) with (map duration (s0 :: l)) in Hin, Hmax.
    apply in_map_iff in Hin as [s [Hs Hin]].
    rewrite <- Hs.
    assert (Hp : PyFloat.positive_finite (duration s) = true).
    { rewrite Forall_forall in Hpos. apply Hpos, Hin. }
    destruct (duration s) as [| | |[] m e] eqn:Ed; try discriminate.
    cbn [PyFloat.round cond_Zopp].
    pose proof (nearest_nonneg (Zpos m) e ltac:(lia)) as Hn.
    pose proof (nearest_spec (Zpos m) e) as Hq.
    exists (if PyFloat.nearest (Zpos m) e =? 0 then 1 else PyFloat.nearest (Zpos m) e).
    split; [reflexivity|]. split; [destruct (Z.eqb_spec (PyFloat.nearest (Zpos m) e) 0); lia|].
    split; [discriminate|]. intros _. exists s. split; [exact Hin|]. split.
    + intros s' Hs'. rewrite Ed, Hs. apply Hmax. apply in_map, Hs'.
    + rewrite Ed. cbn [PyFloat.to_Q cond_Zopp]. rewrite <- Hq. split.
      * destruct (Z.eqb_spec (PyFloat.nearest (Zpos m) e) 0); lia.
      * rewrite Hq. apply Qround_half_even_near.
Qed.

(** ** [get_segment] (C2) *)

Lemma find_sequence_spec (seq : Z) (l : list Segment) (i0 : nat) :
  (In seq (map sequence l) ->
     exists j seg, find_sequence seq i0 l = OneSegment (i0 + j) seg
       /\ nth_error l j = Some seg /\ sequence seg = seq
       /\ forall k seg', (k < j)%nat -> nth_error l k = Some seg' -> sequence seg' <> seq)
  /\ (~ In seq (map sequence l) -> find_sequence seq i0 l = NoSegment).
Proof.
  revert i0; induction l as [|s l IH]; intros i0; simpl.
  - split; [tauto|reflexivity].
  - destruct (Z.eqb_spec (sequence s) seq) as [E|E].
    + split; [|tauto]. intros _. exists 0%nat, s.
      rewrite Nat.add_0_r. repeat split; auto. intros k seg' Hk; lia.
    + destruct (IH (S i0)) as [IH1 IH2]. split.
      * intros [H|H]; [contradiction|].
        destruct (IH1 H) as (j & seg & Hf & Hn & Hs & Hfirst).
        exists (S j), seg. rewrite Hf. replace (S i0 + j)%nat with (i0 + S j)%nat by lia.
        repeat split; auto.
        intros [|k] seg' Hk Hk'; simpl in Hk'; [congruence|].
        apply (Hfirst k seg'); [lia|exact Hk'].
      * intros H. apply IH2. tauto.
Qed.

(** For a sequence number other than 0, [get_segment] returns the first
    retained segment with that sequence number, and [None] when there is
    none. *)
Lemma get_segment_nonzero (self : HlsStreamOutput) (s : Z) :
  s <> 0 ->
  (In s (segments self) ->
     exists i seg, get_segment self (Some s) = OneSegment i seg
       /\ nth_error (items (_segments self)) i = Some seg /\ sequence seg = s)
  /\ (~ In s (segments self) -> get_segment self (Some s) = NoSegment).
Proof.
  intros Hs. unfold get_segment, falsy, segments.
  destruct (Z.eqb_spec s 0) as [E|_]; [contradiction|].
  destruct (find_sequence_spec s (items (_segments self)) 0) as [H1 H2].
  split; [|exact H2]. intros H. destruct (H1 H) as (j & seg & Hf & Hn & Hq & _).
  exists j, seg. auto.
Qed.

(** C2 fails at 0: [get_segment(0)] takes the branch meant for a call
    without argument and returns the deque itself, on every buffer,
    whether a segment with sequence number 0 is retained or not. *)
Theorem get_segment_zero (self : HlsStreamOutput) :
  get_segment self (Some 0) = WholeDeque (_segments self)
  /\ get_segment self (Some 0) = get_segment self None.
Proof. split; reflexivity. Qed.

(** ** The renderers and the buffer (C3, C8, C9) *)

Lemma set_stream_sequences (i : nat) (b : BytesIO) (l : list Segment) :
  map sequence (set_stream i b l) = map sequence l.
Proof.
  revert i; induction l as [|s l IH]; intros [|i]; simpl; try reflexivity.
  rewrite IH; reflexivity.
Qed.

Lemma set_stream_durations (i : nat) (b : BytesIO) (l : list Segment) :
  map duration (set_stream i b l) = map duration l.
Proof.
  revert i; induction l as [|s l IH]; intros [|i]; simpl; try reflexivity.
  rewrite IH; reflexivity.
Qed.

Lemma set_stream_other (i j : nat) (b : BytesIO) (l : list Segment) :
  j <> i -> nth_error (set_stream i b l) j = nth_error l j.
Proof.
  revert i j; induction l as [|s l IH]; intros [|i] [|j] H; simpl; auto; try lia.
Qed.

Lemma set_stream_same (i : nat) (b : BytesIO) (l : list Segment) (s : Segment) :
  nth_error l i = Some s ->
  nth_error (set_stream i b l) i = Some (mkSegment (sequence s) b (duration s)).
Proof.
  revert i; induction l as [|x l IH]; intros [|i] H; simpl in *; try discriminate.
  - injection H as ->. reflexivity.
  - apply IH, H.
Qed.

Lemma set_stream_twice (i : nat) (b b' : BytesIO) (l : list Segment) :
  set_stream i b' (set_stream i b l) = set_stream i b' l.
Proof.
  revert i; induction l as [|x l IH]; intros [|i]; simpl; try reflexivity.
  rewrite IH; reflexivity.
Qed.

Lemma set_stream_bytes (i : nat) (b : BytesIO) (l : list Segment) (s : Segment) :
  nth_error l i = Some s -> getvalue b = getvalue (segment s) ->
  map (fun x => getvalue (segment x)) (set_stream i b l)
  = map (fun x => getvalue (segment x)) l.
Proof.
  revert i; induction l as [|x l IH]; intros [|i] H Hb; simpl in *; try discriminate.
  - injection H as ->. rewrite Hb. reflexivity.
  - rewrite (IH i H Hb). reflexivity.
Qed.

Lemma seek_end_0 (b : BytesIO) :
  seek_end 0 b = (Z.of_nat (List.length (getvalue b)), at_end b).
Proof.
  unfold seek_end, at_end. rewrite Z.add_0_r, Z.max_r by lia. reflexivity.
Qed.

Lemma reads_only_ret {A : Type} (a : A) : reads_only (ret a).
Proof. intros self; reflexivity. Qed.

Lemma reads_only_gets {A : Type} (f : HlsStreamOutput -> A) : reads_only (gets f).
Proof. intros self; reflexivity. Qed.

Lemma reads_only_lift {A : Type} (r : result A) : reads_only (lift r).
Proof. intros self; reflexivity. Qed.

Lemma reads_only_bind {A B : Type} (m : M A) (k : A -> M B) :
  reads_only m -> (forall a, reads_only (k a)) -> reads_only (bind m k).
Proof.
  intros Hm Hk self. unfold bind. specialize (Hm self).
  destruct (m self) as [[a|e] self']; simpl in Hm; subst self'; [apply Hk|reflexivity].
Qed.

Section Renderers.

Variable NUM_PLAYLIST_SEGMENTS : Z.
Variable get_codec_string : BytesIO -> result string * BytesIO.


(** [render_master], call by call. *)
Lemma render_master_unfold (self : HlsStreamOutput) :
  render_master get_codec_string self =
  match PyList.index_last (segments self) with
  | Raise e => (Raise e, self)
  | Ok last =>
      match the_segment (get_segment self (Some last)) with
      | Raise e => (Raise e, self)
      | Ok (i, seg) =>
          let self1 := with_stream i (at_end (segment seg)) self in
          match bandwidth (Z.of_nat (List.length (getvalue (segment seg)))) (duration seg) with
          | Raise e => (Raise e, self1)
          | Ok bw =>
              match nth_error (items (_segments self1)) i with
              | None => (Raise IndexError, self1)
              | Some s =>
                  match fst (get_codec_string (segment s)) with
                  | Raise e => (Raise e, with_stream i (snd (get_codec_string (segment s))) self1)
                  | Ok codecs =>
                      (Ok (master_text bw codecs),
                       with_stream i (snd (get_codec_string (segment s))) self1)
                  end
              end
          end
      end
  end.
Proof.
  unfold render_master, bind, gets, lift, ret.
  destruct (PyList.index_last (segments self)) as [last|e]; [|reflexivity].
  destruct (the_segment (get_segment self (Some last))) as [[i seg]|e]; [|reflexivity].
  unfold seek_segment_end. cbn [fst snd]. rewrite seek_end_0.
  destruct (bandwidth _ (duration seg)) as [bw|e]; [|reflexivity].
  unfold codec_string. cbn zeta.
  destruct (nth_error _ i) as [s|]; [|reflexivity].
  destruct (get_codec_string (segment s)) as [[codecs|e] b']; reflexivity.
Qed.

Lemma the_segment_found (self : HlsStreamOutput) (seq : option Z) (i : nat) (seg : Segment) :
  the_segment (get_segment self seq) = Ok (i, seg) ->
  get_segment self seq = OneSegment i seg
  /\ nth_error (items (_segments self)) i = Some seg.
Proof.
  intros H. destruct (get_segment self seq) as [d|j s|] eqn:E; try discriminate.
  injection H as -> ->. split; [reflexivity|].
  unfold get_segment in E. destruct (falsy seq); [discriminate|].
  destruct seq as [n|]; [|discriminate].
  destruct (in_dec Z.eq_dec n (map sequence (items (_segments self)))) as [Hin|Hout].
  - destruct (proj1 (find_sequence_spec n _ 0) Hin) as (j & s & Hf & Hn & _).
    rewrite Hf in E. injection E as <- <-. exact Hn.
  - rewrite (proj2 (find_sequence_spec n _ 0) Hout) in E. discriminate.
Qed.

(** What [render_master] leaves behind: the buffer as it was when it
    raised before reading a stream, and otherwise the buffer with the
    stream of the segment it read repositioned at its end and, unless the
    bandwidth computation raised, handed to the codec reader. *)
Lemma render_master_state (self : HlsStreamOutput) :
  (snd (render_master get_codec_string self) = self /\ exists e, fst (render_master get_codec_string self) = Raise e)
  \/ exists i seg b,
       nth_error (items (_segments self)) i = Some seg
       /\ snd (render_master get_codec_string self) = with_stream i b self
       /\ ((b = at_end (segment seg) /\ exists e, fst (render_master get_codec_string self) = Raise e)
           \/ b = snd (get_codec_string (at_end (segment seg)))).
Proof.
  rewrite render_master_unfold.
  destruct (PyList.index_last (segments self)) as [last|e];
    [|left; split; [reflexivity|exists e; reflexivity]].
  destruct (the_segment (get_segment self (Some last))) as [[i seg]|e] eqn:Ef;
    [|left; split; [reflexivity|exists e; reflexivity]].
  destruct (the_segment_found self _ i seg Ef) as [_ Hn].
  right. exists i, seg. cbn zeta.
  destruct (bandwidth _ (duration seg)) as [bw|e].
  - unfold with_stream at 1 2. cbn [_segments items].
    rewrite (set_stream_same i _ _ seg Hn). cbn [segment].
    exists (snd (get_codec_string (at_end (segment seg)))).
    split; [exact Hn|split; [|right; reflexivity]].
    destruct (fst (get_codec_string (at_end (segment seg)))); cbn [snd];
      unfold with_stream; cbn; rewrite set_stream_twice; reflexivity.
  - exists (at_end (segment seg)).
    split; [exact Hn|split; [reflexivity|left; split; [reflexivity|exists e; reflexivity]]].
Qed.

Lemma render_entries_state (l : list Z) (playlist : list string) :
  reads_only (render_entries l playlist).
Proof.
  revert playlist; induction l as [|x l IH]; intros playlist; [apply reads_only_ret|].
  cbn [render_entries].
  apply reads_only_bind; [apply reads_only_gets|intros found].
  apply reads_only_bind; [apply reads_only_lift|intros ref]. apply IH.
Qed.

Lemma render_playlist_state : reads_only (render_playlist NUM_PLAYLIST_SEGMENTS).
Proof.
  unfold render_playlist.
  apply reads_only_bind; [apply reads_only_gets|intros all].
  destruct (PyList.slice_from _ all); [apply reads_only_ret|apply render_entries_state].
Qed.

Lemma render_media_state : reads_only (render_media NUM_PLAYLIST_SEGMENTS).
Proof.
  unfold render_media.
  apply reads_only_bind.
  - unfold render_preamble.
    apply reads_only_bind; [intros self; reflexivity|intros t; apply reads_only_ret].
  - intros preamble.
    apply reads_only_bind; [apply render_playlist_state|intros pl; apply reads_only_ret].
Qed.

(** C3, as the code has it: rendering the segment-listing manifest
    leaves the buffer exactly as it was.  Rendering the top-level
    manifest leaves the cursor, the event, the capacity and the sequence
    numbers and durations of the retained segments as they were, and
    every stream but one: the stream of the segment it reads is
    repositioned at its end by [seek(0, io.SEEK_END)] and then handed to
    the codec reader, so that whenever a manifest is returned the read
    position of that payload is the one the codec reader left, starting
    from the end of the payload.  The bytes of every payload stay as they
    were when the codec reader does not write. *)
Theorem renderers_frame (self : HlsStreamOutput) :
  snd (render_media NUM_PLAYLIST_SEGMENTS self) = self
  /\ let self' := snd (render_master get_codec_string self) in
     _cursor self' = _cursor self
     /\ _event self' = _event self
     /\ maxlen (_segments self') = maxlen (_segments self)
     /\ map sequence (items (_segments self')) = map sequence (items (_segments self))
     /\ map duration (items (_segments self')) = map duration (items (_segments self))
     /\ (self' = self
         \/ exists i seg b,
              nth_error (items (_segments self)) i = Some seg
              /\ nth_error (items (_segments self')) i
                 = Some (mkSegment (sequence seg) b (duration seg))
              /\ (forall j, j <> i ->
                    nth_error (items (_segments self')) j
                    = nth_error (items (_segments self)) j)
              /\ (b = at_end (segment seg)
                  \/ b = snd (get_codec_string (at_end (segment seg)))))
     /\ (forall text, fst (render_master get_codec_string self) = Ok text ->
           exists i seg,
             nth_error (items (_segments self)) i = Some seg
             /\ nth_error (items (_segments self')) i
                = Some (mkSegment (sequence seg)
                                  (snd (get_codec_string (at_end (segment seg))))
                                  (duration seg)))
     /\ ((forall b, getvalue (snd (get_codec_string b)) = getvalue b) ->
         map (fun s => getvalue (segment s)) (items (_segments self'))
         = map (fun s => getvalue (segment s)) (items (_segments self))).
Proof.
  split; [apply render_media_state|]. cbn zeta.
  destruct (render_master_state self) as [[-> [e He]]|(i & seg & b & Hn & -> & Hb)].
  - repeat (split; [reflexivity|]). split; [left; reflexivity|]. split.
    + intros text H. rewrite He in H. discriminate.
    + reflexivity.
  - unfold with_stream; cbn [_cursor _event _segments items maxlen].
    split; [reflexivity|]. split; [reflexivity|]. split; [reflexivity|].
    split; [apply set_stream_sequences|]. split; [apply set_stream_durations|].
    split; [|split].
    + right. exists i, seg, b. split; [exact Hn|]. split; [apply set_stream_same, Hn|].
      split; [intros j Hj; apply set_stream_other, Hj|].
      destruct Hb as [[Hb _]|Hb]; [left|right]; exact Hb.
    + intros text H. exists i, seg. split; [exact Hn|].
      destruct Hb as [[_ [e He]]|Hb]; [rewrite He in H; discriminate|].
      rewrite <- Hb. apply set_stream_same, Hn.
    + intros Hg. apply (set_stream_bytes i b _ seg Hn).
      destruct Hb as [[-> _]| ->]; [reflexivity|]. rewrite Hg. reflexivity.
Qed.

(** When the newest segment has a sequence number other than 0 that no
    older retained segment shares, [render_master] announces the
    bandwidth computed from the size of that segment's payload and its
    duration. *)
Lemma render_master_bandwidth
    (self : HlsStreamOutput) (l : list Segment) (seg : Segment) (bw : Z) (codecs : string) :
  items (_segments self) = l ++ [seg] ->
  sequence seg <> 0 ->
  ~ In (sequence seg) (map sequence l) ->
  bandwidth (Z.of_nat (List.length (getvalue (segment seg)))) (duration seg) = Ok bw ->
  fst (get_codec_string (at_end (segment seg))) = Ok codecs ->
  fst (render_master get_codec_string self) = Ok (master_text bw codecs).
Proof.
  intros Hi Hz Hu Hbw Hc. rewrite render_master_unfold.
  assert (Hlast : PyList.index_last (segments self) = Ok (sequence seg)).
  { unfold segments. rewrite Hi, map_app. apply index_last_app. }
  rewrite Hlast.
  assert (Hg : get_segment self (Some (sequence seg)) = OneSegment (List.length l) seg).
  { unfold get_segment, falsy.
    destruct (Z.eqb_spec (sequence seg) 0) as [E|_]; [contradiction|].
    assert (Hin : In (sequence seg) (map sequence (items (_segments self)))).
    { rewrite Hi, map_app. apply in_or_app. right. left. reflexivity. }
    destruct (proj1 (find_sequence_spec (sequence seg) _ 0) Hin)
      as (j & s & Hf & Hn & Hs & _).
    rewrite Hf. rewrite Hi in Hn.
    destruct (Nat.lt_ge_cases j (List.length l)) as [Hlt|Hge].
    - rewrite nth_error_app1 in Hn by exact Hlt.
      elim Hu. rewrite <- Hs. apply in_map. eapply nth_error_In, Hn.
    - rewrite nth_error_app2 in Hn by exact Hge.
      destruct (j - List.length l)%nat as [|k] eqn:Ek; simpl in Hn.
      + injection Hn as ->. f_equal. lia.
      + destruct k; discriminate. }
  rewrite Hg. cbn [the_segment]. cbn zeta. rewrite Hbw.
  assert (Hn : nth_error (items (_segments self)) (List.length l) = Some seg).
  { rewrite Hi. apply nth_error_snoc_new. }
  unfold with_stream at 1. cbn [_segments items].
  rewrite (set_stream_same _ _ _ seg Hn). cbn [segment]. rewrite Hc. reflexivity.
Qed.

(** C8 fails when the newest segment has sequence number 0:
    [track.get_segment(track.segments[-1])] is then the deque, which has
    no [segment] attribute, and [render_master] raises before it computes
    any bandwidth. *)
Theorem render_master_sequence_zero
    (c : option Z) (e : bool) (n : nat) (l : list Segment)
    (b : BytesIO) (d : PyFloat.float) :
  render_master get_codec_string (mkOutput c e (mkDeque (l ++ [mkSegment 0 b d]) n))
  = (Raise AttributeError, mkOutput c e (mkDeque (l ++ [mkSegment 0 b d]) n)).
Proof.
  rewrite render_master_unfold. unfold segments. cbn [_segments items].
  rewrite map_app. cbn [map sequence]. rewrite index_last_app. reflexivity.
Qed.

End Renderers.

(** The bandwidth of 750000 bytes in 6.0 seconds. *)
Example bandwidth_750000_bytes_6_seconds : bandwidth 750000 f_6_0 = Ok 1200000.
Proof. vm_compute. reflexivity. Qed.

(** C9: the segment-listing manifest of a buffer holding the segments
    10, 11, 12 of durations 6.0, 6.0, 5.5, with a window of 3: the
    media-sequence line says 10, and each segment, in ascending order, has
    a duration line with four decimals followed by the reference
    [./segment/<sequence>.m4s]; the buffer stays as it was. *)
Theorem render_media_example
    (c : option Z) (e : bool) (n : nat) (b1 b2 b3 : BytesIO) :
  let self :=
    mkOutput c e
      (mkDeque [mkSegment 10 b1 f_6_0; mkSegment 11 b2 f_6_0; mkSegment 12 b3 f_5_5] n) in
  let entries :=
    [ "#EXT-X-MEDIA-SEQUENCE:10";
      "#EXTINF:6.0000,"; "./segment/10.m4s";
      "#EXTINF:6.0000,"; "./segment/11.m4s";
      "#EXTINF:5.5000,"; "./segment/12.m4s" ]%string in
  render_playlist 3 self = (Ok entries, self)
  /\ render_media 3 self =
     (Ok (PyStr.join PyStr.newline
            ([ "#EXTM3U"; "#EXT-X-VERSION:7"; "#EXT-X-TARGETDURATION:6";
               "#EXT-X-MAP:URI=" ++ PyStr.dquote ++ "init.mp4" ++ PyStr.dquote ]
             ++ entries) ++ PyStr.newline)%string,
      self).
Proof. split; reflexivity. Qed.

(** * Concrete instances *)

(** C1 at a buffer holding one segment of 6.25 seconds: the target
    duration is 6, and the ceiling of the largest duration is 7. *)
Lemma target_duration_is_not_the_ceiling :
  target_duration (buffer_of [segment_4]) = Ok 6
  /\ Qceiling (PyFloat.to_Q (duration segment_4)) = 7.
Proof. split; vm_compute; reflexivity. Qed.

Lemma target_duration_rounds_witness :
  exists t, target_duration (buffer_of [segment_1; segment_2]) = Ok t /\ 1 <= t.
Proof.
  destruct (target_duration_rounds (buffer_of [segment_1; segment_2]))
    as (t & Ht & H1 & _).
  - repeat constructor.
  - exists t. split; [exact Ht|exact H1].
Defined.

(** C3 at a buffer holding one segment of three bytes whose stream is at
    position 0, with a codec reader that leaves the stream alone:
    [render_master] returns the manifest and the stream is at position 3
    afterwards. *)
Lemma render_master_moves_read_position :
  fst (render_master quiet_codec (buffer_of [segment_1]))
  = Ok (master_text 5 "avc1.64001f")
  /\ map (fun s => tell (segment s)) (items (_segments (buffer_of [segment_1]))) = [0]
  /\ map (fun s => tell (segment s))
         (items (_segments (snd (render_master quiet_codec (buffer_of [segment_1]))))) = [3].
Proof. repeat split; vm_compute; reflexivity. Qed.

Lemma retention_window_witness :
  List.length
    (segments (output (run 3 [Put segment_1; CallRecv; Put segment_2;
                              Put segment_3; Put segment_4] (start 3))))
  = Nat.min 4 3.
Proof.
  exact (proj1 (proj2 (retention_window 3
           [Put segment_1; CallRecv; Put segment_2; Put segment_3; Put segment_4]
           eq_refl))).
Defined.

Lemma recv_before_first_append_witness :
  nth_error (tasks (run 3 [CallRecv; Put segment_1; Resume 0%nat] (start 3))) 0
  = Some (Done (Ok (Some segment_1)))
  /\ _cursor (output (run 3 [CallRecv; Put segment_1; Resume 0%nat] (start 3))) = Some 1.
Proof.
  exact (proj2 (recv_before_first_append 3 (start 3) segment_1 [] []
                  ltac:(lia) eq_refl eq_refl eq_refl)).
Defined.


Lemma recv_waits_on_nonempty_buffer_witness :
  call_recv (run 3 [Put segment_1] (start 3))
  = mkLoop (output (run 3 [Put segment_1] (start 3))) [Waiting]
  /\ nth_error
       (tasks (run 3 [CallRecv; CallRecv; Put segment_2; Resume 0%nat]
                 (run 3 [Put segment_1] (start 3)))) 0
     = Some (Done (Ok (Some segment_2))).
Proof.
  destruct (recv_waits_on_nonempty_buffer 3 (run 3 [Put segment_1] (start 3))
              segment_2 [CallRecv] [])
    as (H1 & _ & H3 & _).
  - exists [Put segment_1]. reflexivity.
  - simpl. discriminate.
  - reflexivity.
  - reflexivity.
  - reflexivity.
  - split; [exact H1|exact H3].
Defined.

(** [get_segment(0)] on a buffer that retains the segment 0, and on one
    that does not. *)
Example get_segment_zero_retained :
  get_segment (buffer_of [segment_0]) (Some 0) = WholeDeque (mkDeque [segment_0] 3).
Proof. reflexivity. Qed.

Example get_segment_zero_absent :
  get_segment (buffer_of [segment_1; segment_2]) (Some 0)
  = WholeDeque (mkDeque [segment_1; segment_2] 3).
Proof. reflexivity. Qed.

Example get_segment_one_retained :
  get_segment (buffer_of [segment_1; segment_2]) (Some 1) = OneSegment 0 segment_1
  /\ get_segment (buffer_of [segment_1; segment_2]) (Some 3) = NoSegment.
Proof. split; reflexivity. Qed.

(** [render_master] on a buffer whose only segment has sequence number
    0, 750000 bytes and 6.0 seconds, and on the same segment numbered
    7. *)
Example render_master_segment_0 :
  render_master quiet_codec (buffer_of [segment_0])
  = (Raise AttributeError, buffer_of [segment_0]).
Proof. rewrite render_master_unfold. reflexivity. Qed.

Example render_master_segment_7 :
  fst (render_master quiet_codec
         (buffer_of [mkSegment 7 (segment segment_0) (duration segment_0)]))
  = Ok (master_text 1200000 "avc1.64001f").
Proof.
  apply (render_master_bandwidth quiet_codec _ []
           (mkSegment 7 (segment segment_0) (duration segment_0))).
  - reflexivity.
  - discriminate.
  - intros [].
  - cbn [segment segment_0 getvalue duration].
    rewrite repeat_length, Z2Nat.id by lia.
    apply bandwidth_750000_bytes_6_seconds.
  - reflexivity.
Qed.

(** A call that returns a segment leaves its sequence number in the
    cursor of the buffer, and the next call, made by a consumer that has
    seen nothing yet, parks on it. *)
Example cursor_is_shared :
  let w := run 3 [Put segment_1; CallRecv; Put segment_2; Resume 0%nat] (start 3) in
  tasks w = [Done (Ok (Some segment_2))]
  /\ _cursor (output w) = Some 2
  /\ tasks (call_recv w) = [Done (Ok (Some segment_2)); Waiting].
Proof. repeat split. Qed.

(** * Further properties of the buffer and the views *)

(** ** Lookup by sequence number *)

Lemma find_sequence_snoc (seq : Z) (l : list Segment) (s : Segment) (i0 : nat) :
  ~ In seq (map sequence l) -> sequence s = seq ->
  find_sequence seq i0 (l ++ [s]) = OneSegment (i0 + List.length l) s.
Proof.
  revert i0; induction l as [|x l IH]; intros i0 Hn Hs; simpl.
  - rewrite Hs, Z.eqb_refl, Nat.add_0_r. reflexivity.
  - destruct (Z.eqb_spec (sequence x) seq) as [E|E].
    + elim Hn. left; exact E.
    + rewrite IH; [f_equal; lia| |exact Hs]. intros H; apply Hn; right; exact H.
Qed.

Lemma find_sequence_unique (l : list Segment) (s : Segment) (j i0 : nat) :
  NoDup (map sequence l) -> nth_error l j = Some s ->
  find_sequence (sequence s) i0 l = OneSegment (i0 + j) s.
Proof.
  intros Hnd Hj.
  assert (Hin : In (sequence s) (map sequence l)).
  { apply in_map. eapply nth_error_In, Hj. }
  destruct (proj1 (find_sequence_spec (sequence s) l i0) Hin) as (j' & seg & Hf & Hn & Hs & _).
  assert (E : j' = j).
  { apply (proj1 (NoDup_nth_error (map sequence l)) Hnd).
    - rewrite length_map. apply nth_error_Some. congruence.
    - rewrite !nth_error_map, Hn, Hj. simpl. congruence. }
  subst j'. rewrite Hf. congruence.
Qed.

(** X1: for a sequence number other than 0, [get_segment] returns the
    first retained segment that carries it, with its position in the
    deque, and [None] exactly when no retained segment carries it. *)
Theorem get_segment_first_match (self : HlsStreamOutput) (s : Z) :
  s <> 0 ->
  (In s (segments self) ->
     exists i seg,
       get_segment self (Some s) = OneSegment i seg
       /\ nth_error (items (_segments self)) i = Some seg
       /\ sequence seg = s
       /\ forall k seg', (k < i)%nat ->
            nth_error (items (_segments self)) k = Some seg' -> sequence seg' <> s)
  /\ (get_segment self (Some s) = NoSegment <-> ~ In s (segments self)).
Proof.
  intros Hs. unfold get_segment, falsy, segments.
  destruct (Z.eqb_spec s 0) as [E|_]; [contradiction|].
  destruct (find_sequence_spec s (items (_segments self)) 0) as [H1 H2].
  split; [exact H1|]. split; [|exact H2].
  intros Hn Hin. destruct (H1 Hin) as (j & seg & Hf & _). congruence.
Qed.

(** X2: a segment just appended is the one its sequence number finds,
    at the last position of the deque, when the capacity is at least 1
    and the number is neither 0 nor carried by a retained segment. *)
Theorem put_then_get (s : Segment) (w : Loop) :
  (0 < maxlen (_segments (output w)))%nat ->
  sequence s <> 0 ->
  ~ In (sequence s) (segments (output w)) ->
  exists i,
    get_segment (output (_async_put s w)) (Some (sequence s)) = OneSegment i s
    /\ S i = List.length (items (_segments (output (_async_put s w)))).
Proof.
  intros Hm Hz Hn. unfold get_segment, falsy.
  destruct (Z.eqb_spec (sequence s) 0) as [E|_]; [contradiction|].
  rewrite async_put_segments, deque_append_items. unfold segments in Hn.
  destruct (Nat.ltb_spec (maxlen (_segments (output w)))
              (List.length (items (_segments (output w))) + 1)) as [Hlt|Hge].
  - destruct (items (_segments (output w))) as [|h rest]; simpl in Hlt; [lia|].
    cbn [app tl]. exists (List.length rest).
    rewrite find_sequence_snoc; [|intros H; apply Hn; right; exact H|reflexivity].
    split; [reflexivity|]. rewrite length_app. simpl. lia.
  - exists (List.length (items (_segments (output w)))).
    rewrite find_sequence_snoc; [|exact Hn|reflexivity].
    split; [reflexivity|]. rewrite length_app. simpl. lia.
Qed.


(** ** The protocol over whole runs *)

Lemma puts_of_app (acts1 acts2 : list action) :
  puts_of (acts1 ++ acts2) = puts_of acts1 ++ puts_of acts2.
Proof.
  induction acts1 as [|a acts1 IH]; [reflexivity|].
  destruct a; simpl; rewrite IH; reflexivity.
Qed.

Lemma wake_fixes (l : list task) :
  (forall i, nth_error l i <> Some Waiting) -> map wake l = l.
Proof.
  induction l as [|t l IH]; intros H; [reflexivity|]. simpl.
  rewrite IH by (intros i; apply (H (S i))).
  destruct t; try reflexivity. elim (H 0%nat). reflexivity.
Qed.

Lemma deque_append_In {A : Type} (d : deque A) (x y : A) :
  In y (items (deque_append d x)) -> In y (items d) \/ y = x.
Proof.
  rewrite deque_append_items.
  assert (H : In y (items d ++ [x]) -> In y (items d) \/ y = x).
  { rewrite in_app_iff. simpl. intuition. }
  destruct (_ <? _)%nat; [|exact H].
  intros Hin. apply H. destruct (items d ++ [x]); [exact Hin|right; exact Hin].
Qed.

Section History.

Variable MAX_SEGMENTS : nat.

(** X4: in every state the loop can reach, also after [cleanup] and
    after appends that follow it, [segments] has at most [MAX_SEGMENTS]
    items, the deque has that capacity, and the event is set only while
    the deque is empty. *)
Theorem buffer_bounded_always (w : Loop) :
  reachable MAX_SEGMENTS w ->
  (List.length (segments (output w)) <= MAX_SEGMENTS)%nat
  /\ maxlen (_segments (output w)) = MAX_SEGMENTS
  /\ (_event (output w) = true -> segments (output w) = []).
Proof.
  intros Hr. destruct (reachable_consistent MAX_SEGMENTS w Hr) as (Hm & Hl & He).
  unfold segments. rewrite length_map. split; [exact Hl|split; [exact Hm|]].
  intros Ht. destruct (He Ht) as [-> _]. reflexivity.
Qed.

(** X5: an append releases every parked call: in a state the loop can
    reach, the tasks after [_async_put] are the tasks before it with
    each parked one released, so none is parked. *)
Theorem put_wakes_everyone (s : Segment) (w : Loop) :
  reachable MAX_SEGMENTS w ->
  tasks (_async_put s w) = map wake (tasks w)
  /\ forall i, nth_error (tasks (_async_put s w)) i <> Some Waiting.
Proof.
  intros Hr. destruct (reachable_consistent MAX_SEGMENTS w Hr) as (_ & _ & He).
  assert (E : tasks (_async_put s w) = map wake (tasks w)).
  { unfold _async_put, event_clear, event_set. simpl.
    destruct (_event (output w)) eqn:Ev; simpl; [|reflexivity].
    symmetry. apply wake_fixes. apply He. reflexivity. }
  split; [exact E|]. intros i. rewrite E. apply wake_not_waiting.
Qed.

(** What a run from the start has appended bounds what the buffer holds,
    what the cursor says and what the calls of [recv] have returned. *)
Lemma history (acts : list action) :
  let w := run MAX_SEGMENTS acts (start MAX_SEGMENTS) in
  (forall seg, In seg (items (_segments (output w))) -> In seg (puts_of acts))
  /\ (forall c, _cursor (output w) = Some c -> In c (map sequence (puts_of acts)))
  /\ (forall i r, nth_error (tasks w) i = Some (Done r) ->
        exists v, r = Ok v /\ forall seg, v = Some seg -> In seg (puts_of acts)).
Proof.
  induction acts as [|a acts IH] using rev_ind.
  - cbn. split; [tauto|split; [discriminate|]]. intros [|i] r H; discriminate.
  - unfold run in *. rewrite fold_left_app, puts_of_app. cbn [fold_left].
    set (w := fold_left (step MAX_SEGMENTS) acts (start MAX_SEGMENTS)) in *.
    cbn zeta in IH |- *. destruct IH as (Hi & Hc & Ht).
    assert (Hrest : forall self r,
              recv_rest (output w) = (r, self) ->
              _segments self = _segments (output w)
              /\ (forall c, _cursor self = Some c -> In c (map sequence (puts_of acts)))
              /\ exists v, r = Ok v /\ forall seg, v = Some seg -> In seg (puts_of acts)).
    { intros self r E.
      destruct (recv_rest_cases (output w)) as [[_ E']|[seg [Hl E']]];
        rewrite E' in E; injection E as <- <-.
      - split; [reflexivity|split; [exact Hc|]]. exists None. split; [reflexivity|discriminate].
      - assert (Hin : In seg (puts_of acts)) by (apply Hi, index_last_In, Hl).
        split; [reflexivity|split].
        + simpl. intros c [= <-]. apply in_map, Hin.
        + exists (Some seg). split; [reflexivity|]. intros seg' [= <-]. exact Hin. }
    destruct a as [|j|s|].
    + change (step MAX_SEGMENTS w CallRecv) with (call_recv w).
      cbn [puts_of]. rewrite app_nil_r.
      destruct (call_recv_cases w) as [(_ & _ & ->)|(_ & ->)]; cbn [output tasks].
      * split; [exact Hi|split; [exact Hc|]]. intros i r H.
        apply nth_error_snoc_inv in H as [H|H]; [exact (Ht i r H)|discriminate].
      * destruct (Hrest _ _ (surjective_pairing _)) as (Hs & Hc' & Hv).
        rewrite Hs. split; [exact Hi|split; [exact Hc'|]]. intros i r H.
        apply nth_error_snoc_inv in H as [H|H]; [exact (Ht i r H)|].
        injection H as ->. exact Hv.
    + change (step MAX_SEGMENTS w (Resume j)) with (resume j w).
      cbn [puts_of]. rewrite app_nil_r.
      destruct (resume_cases j w) as [(Hj & ->)|(_ & ->)]; [|tauto]. cbn [output tasks].
      destruct (Hrest _ _ (surjective_pairing _)) as (Hs & Hc' & Hv).
      rewrite Hs. split; [exact Hi|split; [exact Hc'|]]. intros i r H.
      destruct (Nat.eq_dec j i) as [->|Hji].
      * rewrite set_task_same in H by (apply nth_error_Some; congruence).
        injection H as <-. exact Hv.
      * rewrite set_task_other in H by exact Hji. exact (Ht i r H).
    + change (step MAX_SEGMENTS w (Put s)) with (_async_put s w).
      cbn [puts_of app]. rewrite async_put_segments. split; [|split].
      * intros seg H. apply in_or_app. apply deque_append_In in H as [H| ->];
          [left; apply Hi, H|right; left; reflexivity].
      * intros c H. rewrite map_app. apply in_or_app. left. apply Hc.
        unfold _async_put, event_clear, event_set in H.
        destruct (_event (output w)); exact H.
      * intros i r H.
        assert (H' : nth_error (tasks w) i = Some (Done r)).
        { unfold _async_put, event_clear, event_set in H. simpl in H.
          destruct (_event (output w)); simpl in H; [exact H|apply wake_done, H]. }
        destruct (Ht i r H') as (v & -> & Hv). exists v. split; [reflexivity|].
        intros seg E. apply in_or_app. left. apply Hv, E.
    + change (step MAX_SEGMENTS w Cleanup) with (cleanup MAX_SEGMENTS w).
      cbn [puts_of]. rewrite app_nil_r. unfold cleanup, event_set.
      destruct (_event (output w)); cbn; (split; [tauto|split; [exact Hc|]]).
      * exact Ht.
      * intros i r H. apply (Ht i r). apply wake_done, H.
Qed.

(** X7: no call of [recv] raises: in every state of a run from the
    start, each call that has returned has returned [None] or a segment
    that the run appended. *)
Theorem recv_never_raises (acts : list action) (i : nat) (r : result (option Segment)) :
  nth_error (tasks (run MAX_SEGMENTS acts (start MAX_SEGMENTS))) i = Some (Done r) ->
  exists v, r = Ok v /\ forall seg, v = Some seg -> In seg (puts_of acts).
Proof. apply (history acts). Qed.

(** X8: the cursor, once it has a position, holds the sequence number
    of a segment that the run appended, and the buffer retains appended
    segments only. *)
Theorem cursor_names_appended_segment (acts : list action) :
  let w := run MAX_SEGMENTS acts (start MAX_SEGMENTS) in
  (forall c, _cursor (output w) = Some c -> In c (map sequence (puts_of acts)))
  /\ (forall seg, In seg (items (_segments (output w))) -> In seg (puts_of acts)).
Proof.
  destruct (history acts) as (Hi & Hc & _). split; assumption.
Qed.

End History.

Section Latest.

Variable MAX_SEGMENTS : nat.

(** While a call is parked or released and not yet resumed, and nothing
    tears the stream down, the call is released as soon as something is
    appended, and the deque ends with the last segment appended. *)
Lemma released_by_last_put (i : nat) (acts : list action) (w : Loop) :
  parked i (_segments (output w)) w ->
  (0 < maxlen (_segments (output w)))%nat ->
  (List.length (items (_segments (output w))) <= maxlen (_segments (output w)))%nat ->
  existsb (ends_or_resumes i) acts = false ->
  let w' := run MAX_SEGMENTS acts w in
  _event (output w') = false
  /\ maxlen (_segments (output w')) = maxlen (_segments (output w))
  /\ (List.length (items (_segments (output w'))) <= maxlen (_segments (output w)))%nat
  /\ match PyList.index_last (puts_of acts) with
     | Raise _ => nth_error (tasks w') i = Some Waiting
     | Ok s =>
         nth_error (tasks w') i = Some Woken
         /\ PyList.index_last (items (_segments (output w'))) = Ok s
     end.
Proof.
  intros (He & _ & Ht) Hm Hl. induction acts as [|a acts IH] using rev_ind; intros Hacts.
  - cbn. auto.
  - rewrite existsb_app in Hacts. apply orb_false_iff in Hacts as [Hacts Ha].
    simpl in Ha. rewrite orb_false_r in Ha.
    specialize (IH Hacts). cbn zeta in IH |- *.
    unfold run in *. rewrite fold_left_app, puts_of_app. cbn [fold_left].
    set (w1 := fold_left (step MAX_SEGMENTS) acts w) in *.
    destruct IH as (He1 & Hm1 & Hl1 & Hst).
    destruct a as [|j|s|]; try discriminate.
    + change (step MAX_SEGMENTS w1 CallRecv) with (call_recv w1).
      cbn [puts_of]. rewrite app_nil_r.
      destruct (call_recv_frame w1) as [Hs Hev]. rewrite Hs, Hev.
      split; [exact He1|split; [exact Hm1|split; [exact Hl1|]]].
      assert (Hold : forall t, nth_error (tasks w1) i = Some t ->
                nth_error (tasks (call_recv w1)) i = Some t).
      { intros t H. destruct (call_recv_cases w1) as [(_ & _ & ->)|(_ & ->)];
          apply nth_error_snoc_old, H. }
      destruct (PyList.index_last (puts_of acts)); [|apply Hold, Hst].
      destruct Hst as [Hw Hlast]. split; [apply Hold, Hw|exact Hlast].
    + change (step MAX_SEGMENTS w1 (Resume j)) with (resume j w1).
      cbn [puts_of]. rewrite app_nil_r.
      destruct (resume_frame j w1) as [Hs Hev]. rewrite Hs, Hev.
      split; [exact He1|split; [exact Hm1|split; [exact Hl1|]]].
      assert (Hji : j <> i) by (apply Nat.eqb_neq, Ha).
      assert (Hold : nth_error (tasks (resume j w1)) i = nth_error (tasks w1) i).
      { destruct (resume_cases j w1) as [(_ & ->)|(_ & ->)]; [|reflexivity].
        apply set_task_other, Hji. }
      rewrite Hold. exact Hst.
    + change (step MAX_SEGMENTS w1 (Put s)) with (_async_put s w1).
      cbn [puts_of]. rewrite index_last_app, async_put_segments, deque_append_maxlen.
      assert (Hm1' : (0 < maxlen (_segments (output w1)))%nat) by (rewrite Hm1; exact Hm).
      assert (Hl1' : (List.length (items (_segments (output w1)))
                      <= maxlen (_segments (output w1)))%nat) by (rewrite Hm1; exact Hl1).
      destruct (deque_append_last (_segments (output w1)) s Hm1' Hl1') as [Hlast Hlen].
      rewrite Hm1 in Hlen.
      split; [reflexivity|split; [exact Hm1|split; [exact Hlen|]]].
      rewrite Hlast. split; [|reflexivity].
      unfold _async_put, event_clear, event_set. simpl. rewrite He1. simpl.
      rewrite nth_error_map.
      destruct (PyList.index_last (puts_of acts)); [destruct Hst as [-> _]|rewrite Hst];
        reflexivity.
Qed.

(** X6: a call of [recv] sees the latest state only: parked, and resumed
    after any number of appends (and of other calls and resumptions, but
    no [cleanup]), it returns the last segment appended, skipping the
    ones before it, and the cursor is then that segment's sequence
    number. *)
Theorem recv_returns_latest (i : nat) (acts : list action) (s : Segment) (w : Loop) :
  parked i (_segments (output w)) w ->
  (0 < maxlen (_segments (output w)))%nat ->
  (List.length (items (_segments (output w))) <= maxlen (_segments (output w)))%nat ->
  existsb (ends_or_resumes i) acts = false ->
  PyList.index_last (puts_of acts) = Ok s ->
  let w' := resume i (run MAX_SEGMENTS acts w) in
  nth_error (tasks w') i = Some (Done (Ok (Some s)))
  /\ _cursor (output w') = Some (sequence s).
Proof.
  intros Hp Hm Hl Hacts Hs.
  destruct (released_by_last_put i acts w Hp Hm Hl Hacts) as (He & _ & _ & Hst).
  rewrite Hs in Hst. destruct Hst as [Hw Hlast]. cbn zeta.
  destruct (resume_cases i (run MAX_SEGMENTS acts w)) as [(_ & ->)|(Hn & _)];
    [|contradiction].
  rewrite (recv_rest_served s _ Hlast). simpl.
  split; [|reflexivity]. apply set_task_same. apply nth_error_Some. congruence.
Qed.

End Latest.

(** ** The target duration and the segment durations *)

Lemma Qround_half_even_mono (p q : Q) :
  (p <= q)%Q -> Qround_half_even p <= Qround_half_even q.
Proof.
  intros Hpq. destruct (Z_le_gt_dec (Qround_half_even p) (Qround_half_even q)) as [H|H];
    [exact H|exfalso].
  pose proof (proj1 (Qabs_Qle_condition _ _) (Qround_half_even_near p)) as [_ Hp].
  pose proof (proj1 (Qabs_Qle_condition _ _) (Qround_half_even_near q)) as [Hq _].
  assert (Hz : (inject_Z (Qround_half_even q) + 1 <= inject_Z (Qround_half_even p))%Q).
  { change 1%Q with (inject_Z 1). rewrite <- inject_Z_plus, <- Zle_Qle. lia. }
  assert (E : (p == q)%Q) by (apply Qle_antisym; lra).
  rewrite (Qround_half_even_comp p q E) in H. lia.
Qed.

(** X9: the target duration is at least the duration of every retained
    segment rounded to the nearest integer, which is what a client of the
    manifest relies on, when the durations are positive finite floats. *)
Theorem target_duration_covers_segments (self : HlsStreamOutput) (t : Z) :
  Forall (fun s => PyFloat.positive_finite (duration s) = true) (items (_segments self)) ->
  target_duration self = Ok t ->
  forall s, In s (items (_segments self)) ->
    Qround_half_even (PyFloat.to_Q (duration s)) <= t.
Proof.
  intros Hpos Ht s Hs. unfold target_duration in Ht.
  destruct (items (_segments self)) as [|s0 l] eqn:E; [destruct Hs|].
  cbn [List.length Nat.eqb map PyFloat.max] in Ht.
  assert (Hd : Forall (fun x => PyFloat.positive_finite x = true)
                      (duration s0 :: map duration l)).
  { change (duration s0 :: map duration l) with (map duration (s0 :: l)).
    apply Forall_map. exact Hpos. }
  destruct (max_from_spec (map duration l) (duration s0) Hd) as [Hin Hmax].
  rewrite Forall_forall in Hd. specialize (Hd _ Hin).
  specialize (Hmax (duration s) (in_map duration (s0 :: l) s Hs)).
  destruct (PyFloat.max_from (duration s0) (map duration l)) as [| | |[] m e];
    try discriminate.
  cbn [PyFloat.round cond_Zopp] in Ht.
  apply Qround_half_even_mono in Hmax.
  cbn [PyFloat.to_Q cond_Zopp] in Hmax. rewrite <- nearest_spec in Hmax.
  injection Ht as <-.
  destruct (Z.eqb_spec (PyFloat.nearest (Zpos m) e) 0); lia.
Qed.

(** ** The segment-listing manifest in general *)

Section Playlist.

Variable NUM_PLAYLIST_SEGMENTS : Z.

Lemma slice_from_window {A : Type} (l : list A) :
  0 < NUM_PLAYLIST_SEGMENTS ->
  PyList.slice_from (- NUM_PLAYLIST_SEGMENTS) l
  = skipn (List.length l - Z.to_nat NUM_PLAYLIST_SEGMENTS) l.
Proof.
  intros Hn. unfold PyList.slice_from.
  destruct (Z.ltb_spec (- NUM_PLAYLIST_SEGMENTS) 0); [|lia].
  f_equal. lia.
Qed.

Lemma render_entries_window (self : HlsStreamOutput) (ws : list Segment) (pl : list string) :
  NoDup (segments self) ->
  ~ In 0 (segments self) ->
  (forall s, In s ws -> In s (items (_segments self))) ->
  render_entries (map sequence ws) pl self = (Ok (pl ++ flat_map entry_lines ws), self).
Proof.
  intros Hnd Hz. revert pl; induction ws as [|s ws IH]; intros pl Hin.
  - cbn. rewrite app_nil_r. reflexivity.
  - cbn [map render_entries flat_map]. unfold bind at 1, gets.
    assert (Hs : In s (items (_segments self))) by (apply Hin; left; reflexivity).
    destruct (In_nth_error _ _ Hs) as [j Hj].
    assert (Hg : get_segment self (Some (sequence s)) = OneSegment j s).
    { unfold get_segment, falsy.
      destruct (Z.eqb_spec (sequence s) 0) as [E|_].
      - elim Hz. rewrite <- E. apply in_map, Hs.
      - apply (find_sequence_unique _ s j 0 Hnd Hj). }
    rewrite Hg. unfold bind, lift. cbn [the_segment snd].
    rewrite IH by (intros x Hx; apply Hin; right; exact Hx).
    rewrite <- app_assoc. reflexivity.
Qed.

Lemma render_playlist_window (self : HlsStreamOutput) :
  0 < NUM_PLAYLIST_SEGMENTS ->
  NoDup (segments self) ->
  ~ In 0 (segments self) ->
  let window :=
    skipn (List.length (items (_segments self)) - Z.to_nat NUM_PLAYLIST_SEGMENTS)
          (items (_segments self)) in
  render_playlist NUM_PLAYLIST_SEGMENTS self
  = (Ok match window with
        | [] => []
        | first :: _ =>
            ("#EXT-X-MEDIA-SEQUENCE:" ++ PyStr.of_int (sequence first))%string
            :: flat_map entry_lines window
        end,
     self).
Proof.
  intros Hn Hnd Hz window. unfold render_playlist, bind, gets, segments.
  rewrite slice_from_window by exact Hn.
  rewrite length_map, skipn_map. fold window.
  assert (Hsub : forall s, In s window -> In s (items (_segments self))).
  { intros s Hs. unfold window in Hs.
    rewrite <- (firstn_skipn (List.length (items (_segments self))
                              - Z.to_nat NUM_PLAYLIST_SEGMENTS) (items (_segments self))).
    apply in_or_app. right. exact Hs. }
  destruct window as [|first rest] eqn:Ew; [reflexivity|].
  pose proof (render_entries_window self (first :: rest)
                [("#EXT-X-MEDIA-SEQUENCE:" ++ PyStr.of_int (sequence first))%string]
                Hnd Hz Hsub) as H.
  cbn [map] in H |- *. rewrite H. reflexivity.
Qed.

(** X10: when the retained sequence numbers are distinct and none is 0,
    and the window size is positive, the segment-listing part of the
    manifest is empty on an empty buffer and otherwise the media-sequence
    line of the oldest segment of the window followed by the two lines
    of each of the last [NUM_PLAYLIST_SEGMENTS] retained segments, oldest
    first; the buffer stays as it was. *)
Theorem render_playlist_lists_window (self : HlsStreamOutput) :
  0 < NUM_PLAYLIST_SEGMENTS ->
  NoDup (segments self) ->
  ~ In 0 (segments self) ->
  let window :=
    skipn (List.length (items (_segments self)) - Z.to_nat NUM_PLAYLIST_SEGMENTS)
          (items (_segments self)) in
  render_playlist NUM_PLAYLIST_SEGMENTS self
  = (Ok match window with
        | [] => []
        | first :: _ =>
            ("#EXT-X-MEDIA-SEQUENCE:" ++ PyStr.of_int (sequence first))%string
            :: flat_map entry_lines window
        end,
     self)
  /\ List.length window
     = Nat.min (List.length (items (_segments self))) (Z.to_nat NUM_PLAYLIST_SEGMENTS)
  /\ (window = [] <-> items (_segments self) = []).
Proof.
  intros Hn Hnd Hz window. split; [apply render_playlist_window; assumption|].
  assert (Hlen : List.length window
                 = Nat.min (List.length (items (_segments self)))
                           (Z.to_nat NUM_PLAYLIST_SEGMENTS)).
  { unfold window. rewrite length_skipn. lia. }
  split; [exact Hlen|]. split; intros H.
  - rewrite H in Hlen. cbn [List.length] in Hlen.
    destruct (items (_segments self)); [reflexivity|cbn [List.length] in Hlen; lia].
  - unfold window. rewrite H. apply skipn_nil.
Qed.

End Playlist.

(** ** The top-level manifest when it raises *)

(** X11: an exception keeps what was done before it: when the newest
    segment has a sequence number other than 0 that no older retained
    segment shares and the bandwidth computation raises (a duration of
    zero, for one), [HlsMasterPlaylistView.render] raises that exception,
    the codec reader is not called, and the stream of the newest segment
    has been moved to its end all the same. *)
Theorem render_master_raises_after_seek
    (get_codec_string : BytesIO -> result string * BytesIO)
    (self : HlsStreamOutput) (l : list Segment) (seg : Segment) (e : exn) :
  items (_segments self) = l ++ [seg] ->
  sequence seg <> 0 ->
  ~ In (sequence seg) (map sequence l) ->
  bandwidth (Z.of_nat (List.length (getvalue (segment seg)))) (duration seg) = Raise e ->
  render_master get_codec_string self
  = (Raise e, with_stream (List.length l) (at_end (segment seg)) self).
Proof.
  intros Hi Hz Hu Hbw. rewrite render_master_unfold.
  unfold segments. rewrite Hi, map_app. cbn [map]. rewrite index_last_app.
  unfold get_segment, falsy.
  destruct (Z.eqb_spec (sequence seg) 0) as [E|_]; [contradiction|].
  rewrite Hi, (find_sequence_snoc _ l seg 0 Hu eq_refl).
  cbn [the_segment Nat.add]. cbn zeta. rewrite Hbw. reflexivity.
Qed.

(** ** The manifest handlers *)

Section Handlers.

Variable MAX_SEGMENTS : nat.
Variable hls_content_type : string.
Variable render : M string.

(** X12: a manifest handler renders a buffer that holds a segment, or
    does not render at all: when it answers, either the answer is
    [HTTPNotFound], the buffer is empty and as it was, or the answer is
    that of [render] on a buffer with at least one segment. *)
Theorem handle_renders_nonempty_only (w w' : Loop) (a : result response) (i : nat) :
  handle_begin hls_content_type render w = (Answered a, w')
  \/ handle_resume hls_content_type render i w = (Answered a, w') ->
  (a = Ok HTTPNotFound /\ output w' = output w /\ items (_segments (output w)) = [])
  \/ exists st,
       items (_segments st) <> []
       /\ _segments st = _segments (output w)
       /\ respond hls_content_type render st = (a, output w').
Proof.
  assert (Hafter : forall w0 r self,
            recv_rest (output w0) = (r, self) ->
            forall tl, (let (a0, self0) := after_recv hls_content_type render r self in
                        (Answered a0, mkLoop self0 tl)) = (Answered a, w') ->
            (a = Ok HTTPNotFound /\ output w' = output w0
             /\ items (_segments (output w0)) = [])
            \/ exists st, items (_segments st) <> []
                 /\ _segments st = _segments (output w0)
                 /\ respond hls_content_type render st = (a, output w')).
  { intros w0 r self Er tl H.
    destruct (recv_rest_cases (output w0)) as [[Hempty E]|[seg [Hl E]]];
      rewrite E in Er; injection Er as <- <-.
    - left. cbn in H. injection H as <- <-. auto.
    - right. exists (mkOutput (Some (sequence seg)) (_event (output w0))
                              (_segments (output w0))).
      split; [|split; [reflexivity|]].
      + cbn. intros Hn. rewrite Hn in Hl. discriminate.
      + cbn [after_recv] in H.
        destruct (respond hls_content_type render _) as [a0 self0].
        injection H as <- <-. reflexivity. }
  intros [H|H].
  - unfold handle_begin in H.
    destruct (Nat.eqb_spec (List.length (segments (output w))) 0) as [E|E].
    + destruct (call_recv_cases w) as [(_ & _ & Ec)|(_ & Ec)]; rewrite Ec in H; cbn in H.
      * rewrite nth_error_snoc_new in H. discriminate.
      * rewrite nth_error_snoc_new in H.
        apply (Hafter w _ _ (surjective_pairing _) _ H).
    + right. exists (output w). split; [|split; [reflexivity|]].
      * intros Hn. apply E. unfold segments. rewrite Hn. reflexivity.
      * destruct (respond hls_content_type render (output w)) as [a0 self0].
        injection H as <- <-. reflexivity.
  - unfold handle_resume in H.
    destruct (resume_cases i w) as [(Hi & Ec)|(Hn & _)].
    + rewrite Hi, Ec in H. cbn [tasks output] in H.
      rewrite set_task_same in H by (apply nth_error_Some; congruence).
      apply (Hafter w _ _ (surjective_pairing _) _ H).
    + destruct (nth_error (tasks w) i) as [[| |r]|]; try discriminate. contradiction.
Qed.

(** X13: on a fresh buffer of capacity at least 1 a manifest handler
    waits in [recv]; once a segment is appended and the handler resumed
    it answers with [render] on the buffer that holds that segment, the
    cursor being at its sequence number: it does not answer
    [HTTPNotFound]. *)
Theorem handle_waits_for_first_segment (s : Segment) (w : Loop) :
  (0 < MAX_SEGMENTS)%nat ->
  output w = init MAX_SEGMENTS ->
  let i := List.length (tasks w) in
  let parked_w := mkLoop (output w) (tasks w ++ [Waiting]) in
  let st := mkOutput (Some (sequence s)) false (mkDeque [s] MAX_SEGMENTS) in
  handle_begin hls_content_type render w = (Pending i, parked_w)
  /\ handle_resume hls_content_type render i (_async_put s parked_w)
     = (Answered (fst (respond hls_content_type render st)),
        mkLoop (snd (respond hls_content_type render st))
               (set_task i (Done (Ok (Some s))) (map wake (tasks w ++ [Waiting])))).
Proof.
  intros Hm Hw i parked_w st.
  assert (Hc : call_recv w = parked_w).
  { unfold call_recv, parked_w. rewrite Hw. reflexivity. }
  split.
  - unfold handle_begin. rewrite Hc. unfold segments. rewrite Hw. cbn.
    rewrite nth_error_snoc_new. reflexivity.
  - assert (Hput : _async_put s parked_w
                   = mkLoop (mkOutput None false (mkDeque [s] MAX_SEGMENTS))
                            (map wake (tasks w ++ [Waiting]))).
    { unfold _async_put, event_clear, event_set, parked_w. cbn. rewrite Hw. cbn.
      unfold deque_append. cbn.
      destruct MAX_SEGMENTS as [|n]; [lia|reflexivity]. }
    assert (Hi : nth_error (map wake (tasks w ++ [Waiting])) i = Some Woken).
    { rewrite nth_error_map. unfold i. rewrite nth_error_snoc_new. reflexivity. }
    unfold handle_resume, resume. rewrite Hput. cbn [tasks output]. rewrite Hi.
    rewrite (recv_rest_served s (mkOutput None false (mkDeque [s] MAX_SEGMENTS)))
      by reflexivity.
    cbn [tasks output _event _segments].
    rewrite set_task_same by (apply nth_error_Some; congruence).
    cbn [after_recv]. fold st.
    destruct (respond hls_content_type render st) as [a0 self0]. reflexivity.
Qed.

(** X14: after [cleanup], and for as long as nothing is appended, a
    manifest handler answers [HTTPNotFound] at once, and a handler that
    was waiting in [recv] answers [HTTPNotFound] when resumed; neither
    renders. *)
Theorem handle_after_teardown (w : Loop) (acts : list action) :
  reachable MAX_SEGMENTS w ->
  existsb is_put acts = false ->
  let w2 := run MAX_SEGMENTS acts (cleanup MAX_SEGMENTS w) in
  handle_begin hls_content_type render w2
  = (Answered (Ok HTTPNotFound), mkLoop (output w2) (tasks w2 ++ [Done (Ok None)]))
  /\ forall i, nth_error (tasks w2) i = Some Woken ->
       handle_resume hls_content_type render i w2
       = (Answered (Ok HTTPNotFound),
          mkLoop (output w2) (set_task i (Done (Ok None)) (tasks w2))).
Proof.
  intros Hr Hacts w2.
  pose proof (reachable_consistent MAX_SEGMENTS w Hr) as Hc.
  pose proof (ended_run MAX_SEGMENTS w acts _ Hacts (ended_cleanup MAX_SEGMENTS w Hc)) as He.
  fold w2 in He. pose proof He as (_ & Hi & _).
  split.
  - unfold handle_begin, segments. rewrite Hi, (call_recv_ended w w2 He). cbn.
    rewrite nth_error_snoc_new. reflexivity.
  - intros i Ht. unfold handle_resume. rewrite Ht, (resume_ended w w2 i He Ht). cbn.
    rewrite set_task_same by (apply nth_error_Some; congruence). reflexivity.
Qed.

End Handlers.

(** ** The init view and the segment view *)

Section Streams.

Variable get_init : BytesIO -> result (list Byte.byte) * BytesIO.
Variable get_m4s : BytesIO -> Z -> result (list Byte.byte) * BytesIO.

(** X15: [HlsInitView.handle] answers [HTTPNotFound] exactly when the
    buffer is empty, leaving it as it was; otherwise it answers with what
    [get_init] makes of the stream of the oldest retained segment, and
    only that stream may have changed. *)
Theorem init_view_serves_oldest (self : HlsStreamOutput) :
  (fst (init_handle get_init self) = Ok HTTPNotFound <-> items (_segments self) = [])
  /\ (items (_segments self) = [] -> init_handle get_init self = (Ok HTTPNotFound, self))
  /\ (forall first rest, items (_segments self) = first :: rest ->
        init_handle get_init self
        = (answer_with "video/mp4" (fst (get_init (segment first))),
           with_stream 0 (snd (get_init (segment first))) self)).
Proof.
  assert (Hfull : forall first rest, items (_segments self) = first :: rest ->
            init_handle get_init self
            = (answer_with "video/mp4" (fst (get_init (segment first))),
               with_stream 0 (snd (get_init (segment first))) self)).
  { intros first rest E. unfold init_handle, bind, gets, on_stream, ret, get_segment, falsy.
    cbn beta. rewrite E. cbn beta iota. rewrite E. cbn [nth_error].
    destruct (get_init (segment first)) as [[body|e] b]; reflexivity. }
  assert (Hempty : items (_segments self) = [] ->
            init_handle get_init self = (Ok HTTPNotFound, self)).
  { intros E. unfold init_handle, bind, gets, ret, get_segment, falsy.
    rewrite E. reflexivity. }
  split; [|split; assumption]. split.
  - intros H. destruct (items (_segments self)) as [|first rest] eqn:E; [reflexivity|].
    rewrite (Hfull first rest eq_refl) in H. cbn in H.
    destruct (fst (get_init (segment first))); discriminate.
  - intros E. rewrite (Hempty E). reflexivity.
Qed.

(** X16: for a sequence number other than 0, [HlsSegmentView.handle]
    answers [HTTPNotFound] exactly when no retained segment carries the
    number, and otherwise answers with what [get_m4s] makes of the stream
    of the first retained segment that carries it. *)
Theorem segment_view_lookup (self : HlsStreamOutput) (n : Z) :
  n <> 0 ->
  (fst (segment_handle get_m4s n self) = Ok HTTPNotFound <-> ~ In n (segments self))
  /\ (In n (segments self) ->
      exists i seg,
        nth_error (items (_segments self)) i = Some seg
        /\ sequence seg = n
        /\ segment_handle get_m4s n self
           = (answer_with "video/iso.segment" (fst (get_m4s (segment seg) n)),
              with_stream i (snd (get_m4s (segment seg) n)) self)).
Proof.
  intros Hn.
  assert (Hfound : In n (segments self) ->
            exists i seg,
              nth_error (items (_segments self)) i = Some seg
              /\ sequence seg = n
              /\ segment_handle get_m4s n self
                 = (answer_with "video/iso.segment" (fst (get_m4s (segment seg) n)),
                    with_stream i (snd (get_m4s (segment seg) n)) self)).
  { intros Hin. destruct (proj1 (get_segment_nonzero self n Hn) Hin) as (i & seg & Hg & Hi & Hs).
    exists i, seg. split; [exact Hi|split; [exact Hs|]].
    unfold segment_handle, bind, gets, on_stream, ret. rewrite Hg, Hi.
    destruct (get_m4s (segment seg) n) as [[body|e] b]; reflexivity. }
  split; [|exact Hfound]. split.
  - intros H Hin. destruct (Hfound Hin) as (i & seg & _ & _ & E).
    rewrite E in H. cbn in H. destruct (fst (get_m4s (segment seg) n)); discriminate.
  - intros Hout. unfold segment_handle, bind, gets.
    rewrite (proj2 (get_segment_nonzero self n Hn) Hout). reflexivity.
Qed.

(** X17: a request for the segment 0 is answered [HTTPNotFound] on an
    empty buffer and raises [AttributeError] on any other, whether a
    segment numbered 0 is retained or not; the buffer stays as it was. *)
Theorem segment_view_zero (self : HlsStreamOutput) :
  segment_handle get_m4s 0 self
  = (match items (_segments self) with
     | [] => Ok HTTPNotFound
     | _ :: _ => Raise AttributeError
     end, self).
Proof.
  unfold segment_handle, bind, gets. cbn.
  destruct (items (_segments self)); reflexivity.
Qed.

Lemma route_sequence_of_int (n : Z) :
  0 <= n -> route_sequence (PyStr.of_int n) = Some n.
Proof.
  intros Hn. unfold route_sequence, PyStr.of_int.
  destruct n as [|p|p]; [reflexivity| |lia].
  cbn [Z.to_int NilZero.string_of_int].
  rewrite NilZero.usu by apply DecimalPos.Unsigned.to_uint_nonnil.
  cbn [option_map]. unfold Z.of_uint. rewrite DecimalPos.Unsigned.of_to. reflexivity.
Qed.

(** X18: every reference of the segment-listing manifest resolves: when
    the retained sequence numbers are distinct and positive and the
    window size is positive, each segment of the window has its
    reference line in the manifest, the number in that reference is read
    back as the segment's sequence number, and the segment view, asked
    for it on the same buffer, answers with that very segment. *)
Theorem playlist_references_resolve
    (NUM_PLAYLIST_SEGMENTS : Z) (self : HlsStreamOutput) (seg : Segment) :
  0 < NUM_PLAYLIST_SEGMENTS ->
  NoDup (segments self) ->
  (forall n, In n (segments self) -> 0 < n) ->
  In seg (skipn (List.length (items (_segments self)) - Z.to_nat NUM_PLAYLIST_SEGMENTS)
                (items (_segments self))) ->
  (exists lines,
     render_playlist NUM_PLAYLIST_SEGMENTS self = (Ok lines, self)
     /\ In ("./segment/" ++ PyStr.of_int (sequence seg) ++ ".m4s")%string lines)
  /\ route_sequence (PyStr.of_int (sequence seg)) = Some (sequence seg)
  /\ exists i,
       nth_error (items (_segments self)) i = Some seg
       /\ segment_handle get_m4s (sequence seg) self
          = (answer_with "video/iso.segment" (fst (get_m4s (segment seg) (sequence seg))),
             with_stream i (snd (get_m4s (segment seg) (sequence seg))) self).
Proof.
  intros Hn Hnd Hpos Hw.
  assert (Hz : ~ In 0 (segments self)) by (intros H; apply Hpos in H; lia).
  assert (Hin : In seg (items (_segments self))).
  { rewrite <- (firstn_skipn (List.length (items (_segments self))
                              - Z.to_nat NUM_PLAYLIST_SEGMENTS) (items (_segments self))).
    apply in_or_app. right. exact Hw. }
  assert (Hseq : 0 < sequence seg) by (apply Hpos, in_map, Hin).
  split; [|split].
  - pose proof (render_playlist_window NUM_PLAYLIST_SEGMENTS self Hn Hnd Hz) as H.
    cbn zeta in H. rewrite H.
    destruct (skipn _ (items (_segments self))) as [|first rest] eqn:Ew; [destruct Hw|].
    eexists. split; [reflexivity|]. right.
    apply in_flat_map. exists seg. split; [exact Hw|]. right. left. reflexivity.
  - apply route_sequence_of_int. lia.
  - destruct (In_nth_error _ _ Hin) as [i Hi]. exists i. split; [exact Hi|].
    unfold segment_handle, bind, gets, on_stream, ret, get_segment, falsy.
    destruct (Z.eqb_spec (sequence seg) 0) as [E|_]; [lia|].
    rewrite (find_sequence_unique _ seg i 0 Hnd Hi). cbn [Nat.add]. rewrite Hi.
    destruct (get_m4s (segment seg) (sequence seg)) as [[body|e] b]; reflexivity.
Qed.

End Streams.

(** ** The duration of an [EXTINF] line *)

Lemma decimals4_range (fuel : nat) (k : Z) :
  four_decimals_from fuel k = true ->
  forall j, k <= j < k + Z.of_nat fuel ->
    String.length (PyStr.decimals4 j) = 4%nat
    /\ decimal_value (PyStr.decimals4 j) = Some j.
Proof.
  revert k; induction fuel as [|fuel IH]; intros k H j Hj; [lia|].
  cbn [four_decimals_from] in H.
  apply andb_true_iff in H as [Hk H]. apply andb_true_iff in Hk as [Hlen Hval].
  destruct (Z.eq_dec j k) as [->|Hne]; [|apply (IH (k + 1) H); lia].
  split; [apply Nat.eqb_eq, Hlen|].
  destruct (decimal_value (PyStr.decimals4 k)) as [v|]; [|discriminate].
  apply Z.eqb_eq in Hval. congruence.
Qed.

Lemma decimals4_table : four_decimals_from (Z.to_nat 10000) 0 = true.
Proof. vm_compute. reflexivity. Qed.

(** The four characters of [decimals4 n] are digits, and write
    [n mod 10000]. *)
Lemma decimals4_reads_back (n : Z) :
  String.length (PyStr.decimals4 n) = 4%nat
  /\ decimal_value (PyStr.decimals4 n) = Some (n mod 10000).
Proof.
  assert (Hk : 0 <= n mod 10000 < 10000) by (apply Z.mod_pos_bound; lia).
  assert (E : PyStr.decimals4 n = PyStr.decimals4 (n mod 10000)).
  { unfold PyStr.decimals4. rewrite Z.mod_mod by lia. reflexivity. }
  rewrite E. apply (decimals4_range _ 0 decimals4_table). lia.
Qed.

Lemma decimal_value_of_int (n : Z) : 0 <= n -> decimal_value (PyStr.of_int n) = Some n.
Proof. exact (route_sequence_of_int n). Qed.

(** The integer that [format_04f] writes, point removed, is the value of
    the float in ten-thousandths, rounded to the nearest. *)
Lemma ten_thousandths_near (m : positive) (e : Z) :
  (Qabs (inject_Z (PyFloat.nearest (Zpos m * 10000) e)
         - PyFloat.to_Q (S754_finite false m e) * inject_Z 10000) <= 1 # 2)%Q.
Proof.
  assert (E : (PyFloat.to_Q (S754_finite false m e) * inject_Z 10000
               == inject_Z (Zpos m * 10000) * (2 # 1) ^ e)%Q).
  { cbn [PyFloat.to_Q cond_Zopp]. rewrite inject_Z_mult. ring. }
  rewrite nearest_spec.
  set (r := Qround_half_even (inject_Z (Zpos m * 10000) * (2 # 1) ^ e)).
  rewrite E. apply Qround_half_even_near.
Qed.

(** X19: the duration line of a segment in the segment-listing manifest
    is the segment's duration rounded to four decimals.  When the
    retained sequence numbers are distinct and none is 0, the window size
    is positive and the duration of a segment of the window is a positive
    finite float, [render_playlist] returns the line [#EXTINF:w.f,] for
    it, where [w] is a run of digits, [f] is exactly four digits, and the
    number they write, in ten-thousandths, is within one half of the
    duration in ten-thousandths. *)
Theorem extinf_line_is_rounded_duration
    (NUM_PLAYLIST_SEGMENTS : Z) (self : HlsStreamOutput) (seg : Segment) :
  0 < NUM_PLAYLIST_SEGMENTS ->
  NoDup (segments self) ->
  ~ In 0 (segments self) ->
  In seg (skipn (List.length (items (_segments self)) - Z.to_nat NUM_PLAYLIST_SEGMENTS)
                (items (_segments self))) ->
  PyFloat.positive_finite (duration seg) = true ->
  exists whole frac q r,
    (exists lines,
       render_playlist NUM_PLAYLIST_SEGMENTS self = (Ok lines, self)
       /\ In ("#EXTINF:" ++ (whole ++ "." ++ frac) ++ ",")%string lines)
    /\ decimal_value whole = Some q
    /\ String.length frac = 4%nat
    /\ decimal_value frac = Some r
    /\ 0 <= q
    /\ 0 <= r < 10000
    /\ (Qabs (inject_Z (q * 10000 + r) - PyFloat.to_Q (duration seg) * inject_Z 10000)
        <= 1 # 2)%Q.
Proof.
  intros Hn Hnd Hz Hw Hpos.
  destruct (duration seg) as [| | |[] m e] eqn:Ed; try discriminate.
  set (n := PyFloat.nearest (Zpos m * 10000) e).
  assert (Hn0 : 0 <= n) by (apply nearest_nonneg; lia).
  assert (Hq : 0 <= n / 10000) by (apply Z.div_pos; lia).
  assert (Hr : 0 <= n mod 10000 < 10000) by (apply Z.mod_pos_bound; lia).
  destruct (decimals4_reads_back n) as [Hlen Hval].
  exists (PyStr.of_int (n / 10000)), (PyStr.decimals4 n), (n / 10000), (n mod 10000).
  split; [|split; [apply decimal_value_of_int, Hq|split; [exact Hlen|split; [exact Hval|]]]].
  - pose proof (render_playlist_window NUM_PLAYLIST_SEGMENTS self Hn Hnd Hz) as H.
    cbn zeta in H. rewrite H.
    destruct (skipn _ (items (_segments self))) as [|first rest] eqn:Ew; [destruct Hw|].
    eexists. split; [reflexivity|]. right.
    apply in_flat_map. exists seg. split; [exact Hw|]. left.
    unfold entry_lines. rewrite Ed. reflexivity.
  - split; [exact Hq|split; [exact Hr|]].
    replace (n / 10000 * 10000 + n mod 10000) with n
      by (rewrite (Z.div_mod n 10000) at 1 by lia; lia).
    apply ten_thousandths_near.
Qed.

(** ** Concrete instances of the further properties *)

Lemma get_segment_first_match_witness :
  get_segment (buffer_of [segment_1; segment_2]) (Some 3) = NoSegment.
Proof.
  apply (proj2 (get_segment_first_match (buffer_of [segment_1; segment_2]) 3
                  ltac:(discriminate))).
  cbn. intros [H|[H|[]]]; discriminate.
Defined.

Lemma put_then_get_witness :
  exists i,
    get_segment (output (_async_put segment_1 (start 3))) (Some 1) = OneSegment i segment_1
    /\ S i = List.length (items (_segments (output (_async_put segment_1 (start 3))))).
Proof.
  apply (put_then_get segment_1 (start 3)).
  - cbn. lia.
  - discriminate.
  - intros [].
Defined.


Lemma buffer_bounded_always_witness :
  (List.length (segments (output (run 3 [Put segment_1; Cleanup; Put segment_2] (start 3))))
   <= 3)%nat.
Proof.
  apply (buffer_bounded_always 3 (run 3 [Put segment_1; Cleanup; Put segment_2] (start 3))).
  exists [Put segment_1; Cleanup; Put segment_2]. reflexivity.
Defined.

Lemma put_wakes_everyone_witness :
  tasks (_async_put segment_2 (run 3 [Put segment_1; CallRecv] (start 3))) = [Woken].
Proof.
  apply (put_wakes_everyone 3 segment_2 (run 3 [Put segment_1; CallRecv] (start 3))).
  exists [Put segment_1; CallRecv]. reflexivity.
Defined.

Lemma recv_returns_latest_witness :
  nth_error
    (tasks (resume 0 (run 3 [Put segment_1; CallRecv; Put segment_2]
                        (run 3 [CallRecv] (start 3))))) 0
  = Some (Done (Ok (Some segment_2))).
Proof.
  apply (recv_returns_latest 3 0 [Put segment_1; CallRecv; Put segment_2] segment_2
           (run 3 [CallRecv] (start 3))).
  - repeat split.
  - cbn. lia.
  - cbn. lia.
  - reflexivity.
  - reflexivity.
Defined.

Lemma recv_never_raises_witness :
  exists v, Ok (Some segment_1) = Ok v
    /\ forall seg, v = Some seg -> In seg (puts_of [CallRecv; Put segment_1; Resume 0%nat]).
Proof.
  apply (recv_never_raises 3 [CallRecv; Put segment_1; Resume 0%nat] 0).
  reflexivity.
Defined.

Lemma target_duration_covers_segments_witness :
  Qround_half_even (PyFloat.to_Q (duration segment_2)) <= 6.
Proof.
  apply (target_duration_covers_segments (buffer_of [segment_1; segment_2]) 6).
  - repeat constructor.
  - reflexivity.
  - right. left. reflexivity.
Defined.

Lemma render_playlist_lists_window_witness :
  render_playlist 2 (buffer_of [segment_1; segment_2; segment_3])
  = (Ok ("#EXT-X-MEDIA-SEQUENCE:2"%string :: flat_map entry_lines [segment_2; segment_3]),
     buffer_of [segment_1; segment_2; segment_3]).
Proof.
  apply (render_playlist_lists_window 2 (buffer_of [segment_1; segment_2; segment_3])).
  - lia.
  - cbn. repeat constructor; cbn; intuition discriminate.
  - cbn. intuition discriminate.
Defined.

Lemma render_master_raises_after_seek_witness :
  render_master quiet_codec (buffer_of [segment_5])
  = (Raise ZeroDivisionError,
     with_stream 0 (at_end (segment segment_5)) (buffer_of [segment_5])).
Proof.
  apply (render_master_raises_after_seek quiet_codec (buffer_of [segment_5]) [] segment_5).
  - reflexivity.
  - discriminate.
  - intros [].
  - reflexivity.
Defined.

Lemma handle_renders_nonempty_only_witness :
  exists st,
    items (_segments st) <> []
    /\ _segments st = _segments (buffer_of [segment_1])
    /\ fst (respond sample_content_type (render_media 3) st)
       = fst (respond sample_content_type (render_media 3) (buffer_of [segment_1])).
Proof.
  destruct (handle_renders_nonempty_only sample_content_type (render_media 3)
              (mkLoop (buffer_of [segment_1]) [])
              (mkLoop (snd (respond sample_content_type (render_media 3)
                              (buffer_of [segment_1]))) [])
              (fst (respond sample_content_type (render_media 3) (buffer_of [segment_1])))
              0)
    as [(_ & _ & H)|(st & Hne & Hs & H)].
  - left. reflexivity.
  - discriminate H.
  - exists st. split; [exact Hne|split; [exact Hs|]]. rewrite H. reflexivity.
Defined.

Lemma handle_waits_for_first_segment_witness :
  handle_begin sample_content_type (render_media 3) (start 3)
  = (Pending 0, mkLoop (init 3) [Waiting]).
Proof.
  apply (handle_waits_for_first_segment 3 sample_content_type (render_media 3)
           segment_1 (start 3)).
  - lia.
  - reflexivity.
Defined.

Lemma handle_after_teardown_witness :
  handle_begin sample_content_type (render_media 3)
    (cleanup 3 (run 3 [Put segment_1; CallRecv] (start 3)))
  = (Answered (Ok HTTPNotFound),
     mkLoop (output (cleanup 3 (run 3 [Put segment_1; CallRecv] (start 3))))
            [Woken; Done (Ok None)]).
Proof.
  apply (handle_after_teardown 3 sample_content_type (render_media 3)
           (run 3 [Put segment_1; CallRecv] (start 3)) []).
  - exists [Put segment_1; CallRecv]. reflexivity.
  - reflexivity.
Defined.

Lemma segment_view_lookup_witness :
  fst (segment_handle quiet_m4s 3 (buffer_of [segment_1; segment_2])) = Ok HTTPNotFound.
Proof.
  apply (proj1 (segment_view_lookup quiet_m4s (buffer_of [segment_1; segment_2]) 3
                  ltac:(discriminate))).
  cbn. intros [H|[H|[]]]; discriminate.
Defined.

Lemma playlist_references_resolve_witness :
  route_sequence (PyStr.of_int (sequence segment_2)) = Some (sequence segment_2).
Proof.
  apply (playlist_references_resolve quiet_m4s 3
           (buffer_of [segment_1; segment_2; segment_3]) segment_2).
  - lia.
  - cbn. repeat constructor; cbn; intuition discriminate.
  - cbn. intros n [<-|[<-|[<-|[]]]]; lia.
  - cbn. right. left. reflexivity.
Defined.

(** ** Concrete instances of the revised properties *)


(** A call returns the segment 4; the stream is torn down and the
    segment 1 appended; the cursor is still 4, and the next call, which
    starts from it, returns the segment 1 at once instead of parking. *)
Lemma recv_shared_cursor_witness :
  _cursor (output (run 3 [Cleanup; Put segment_1]
                     (resume 0 (run 3 [CallRecv; Put segment_4] (start 3))))) = Some 4
  /\ tasks (call_recv (run 3 [Cleanup; Put segment_1]
                         (resume 0 (run 3 [CallRecv; Put segment_4] (start 3)))))
     = [Done (Ok (Some segment_4)); Done (Ok (Some segment_1))]
  /\ _cursor (output (run 3 [Cleanup; Put segment_1; CallRecv]
                        (resume 0 (run 3 [CallRecv; Put segment_4] (start 3))))) = Some 1.
Proof.
  destruct (recv_shared_cursor 3 (run 3 [CallRecv; Put segment_4] (start 3))
              (resume 0 (run 3 [CallRecv; Put segment_4] (start 3)))
              segment_4 [Cleanup; Put segment_1])
    as (_ & _ & _ & _ & H5 & H6 & H7 & _).
  - right. exists 0%nat. repeat split.
  - reflexivity.
  - split; [exact H5|]. split; [rewrite H6; reflexivity|].
    rewrite H7. reflexivity.
Defined.

Lemma extinf_line_is_rounded_duration_witness :
  exists whole frac q r,
    (exists lines,
       render_playlist 3 (buffer_of [segment_1; segment_2])
       = (Ok lines, buffer_of [segment_1; segment_2])
       /\ In ("#EXTINF:" ++ (whole ++ "." ++ frac) ++ ",")%string lines)
    /\ decimal_value whole = Some q
    /\ String.length frac = 4%nat
    /\ decimal_value frac = Some r
    /\ 0 <= q
    /\ 0 <= r < 10000
    /\ (Qabs (inject_Z (q * 10000 + r) - PyFloat.to_Q (duration segment_2) * inject_Z 10000)
        <= 1 # 2)%Q.
Proof.
  apply (extinf_line_is_rounded_duration 3 (buffer_of [segment_1; segment_2]) segment_2).
  - lia.
  - cbn. repeat constructor; cbn; intuition discriminate.
  - cbn. intuition discriminate.
  - cbn. right. left. reflexivity.
  - reflexivity.
Defined.
